(** * chromeRequest: the HTTP request helper of src/main/utils/chromeRequest.ts

    A shallow embedding of [request] and of its wrappers [get], [post],
    [put], [del] and [patch].

    - The [headers] object of the caller, which [request] enumerates, is
      an association list with unique keys, kept in insertion order, the
      order in which [Object.entries] enumerates keys that are not array
      indices. The [responseHeaders] object, which is only written and
      handed back, is the finite map of its own properties.
    - The caller's objects live in a store indexed by references, so that
      the in-place update done by the wrappers is visible to the caller.
    - Numbers ([timeout], [maxRedirects], [port], status codes) are
      integers; strings and buffers are sequences of bytes.
    - The promise returned by [request] is a cell that keeps the first
      outcome passed to [resolve] or [reject]; the host (electron's [net]
      and [session], timers, the JSON codec) is a parameter.
    - [request] returns once the body of [setupProxy] has run up to its
      [await]; the callback of [.then] or the handler of [.catch] runs
      when the promise of [setupProxy] has settled, and only then can the
      request or the timer emit events. *)

From Stdlib Require Import ZArith List Bool Ascii String Strings.Byte DecimalString.
From stdpp Require Import base option list strings gmap.

Local Open Scope string_scope.
Local Open Scope Z_scope.
Local Open Scope list_scope.

(** ** Strings *)

(** [String.prototype.toLowerCase], on the ASCII letters a header name is
    made of; every other byte is kept. *)
Definition lower_ascii (c : ascii) : ascii :=
  let n := nat_of_ascii c in
  if (Nat.leb 65 n && Nat.leb n 90)%bool then ascii_of_nat (n + 32) else c.

Fixpoint toLowerCase (s : string) : string :=
  match s with
  | EmptyString => EmptyString
  | String c s' => String (lower_ascii c) (toLowerCase s')
  end.

(** A number inside a template literal. *)
Definition show_Z (z : Z) : string := NilZero.string_of_int (Z.to_int z).

(** ** Objects used as records *)

Abbreviation JsObj V := (list (string * V)).

(** The own property of [o] under key [k], [None] when it has none:
    this is [o[k]] for a key that [Object.prototype] does not define, as
    content-type. *)
Fixpoint js_get {V} (o : JsObj V) (k : string) : option V :=
  match o with
  | [] => None
  | (k', v) :: o' => if String.eqb k' k then Some v else js_get o' k
  end.

(** [o[k] = v] on own properties, for a key other than __proto__, as
    content-type: an existing key keeps its place, a new one goes
    last. *)
Fixpoint js_set {V} (o : JsObj V) (k : string) (v : V) : JsObj V :=
  match o with
  | [] => [(k, v)]
  | (k', v') :: o' =>
      if String.eqb k' k then (k', v) :: o' else (k', v') :: js_set o' k v
  end.

(** A string is truthy when it is not empty; [undefined] is falsy. *)
Definition truthy (v : option string) : bool :=
  match v with
  | Some s => negb (String.eqb s "")
  | None => false
  end.

(** ** Values and errors *)

#[warnings="-register-all"]
Inductive JsValue :=
| VUndefined
| VNull
| VBool (b : bool)
| VNum (z : Z)
| VBigInt (z : Z)
| VStr (s : string)
| VArr (l : list JsValue)
| VObj (l : list (string * JsValue)).

(** An error object, and [String(error)] as [Error.prototype.toString]
    computes it. *)
Record JsError := { name : string; message : string }.

Definition new_Error (msg : string) : JsError :=
  {| name := "Error"; message := msg |}.

Definition error_toString (e : JsError) : string :=
  if String.eqb (name e) "" then message e
  else if String.eqb (message e) "" then name e
  else name e +:+ ": " +:+ message e.

(** ** The runtime's codecs *)

Class Runtime := {
  (** [buffer.toString('utf-8')] *)
  utf8_decode : list byte -> string;
  (** [JSON.parse]: throws or returns a value *)
  JSON_parse : string -> JsError + JsValue;
  (** [JSON.stringify]: throws, or returns a string or [undefined] *)
  JSON_stringify : JsValue -> JsError + option string
}.

(** ** Options and responses *)

Inductive Method := GET | POST | PUT | DELETE | PATCH.
Inductive ProxyProtocol := http | https | socks5.
Inductive ResponseType := text | json | arraybuffer.
Inductive Body := BodyString (s : string) | BodyBuffer (b : list byte).

Record Proxy := { protocol : ProxyProtocol; host : string; port : Z }.

(** [proxy?: {...} | false] *)
Inductive ProxyOption := ProxyFalse | ProxyTo (p : Proxy).

(** A reference to an object of the store. *)
Definition loc := nat.

Abbreviation Heap := (gmap loc (JsObj string)).

Module RequestOptions.
(** Every field is optional; [None] is a field left out. [headers] is a
    reference: the options share the caller's object. *)
Record t := {
  method : option Method;
  headers : option loc;
  body : option Body;
  proxy : option ProxyOption;
  timeout : option Z;
  responseType : option ResponseType;
  followRedirect : option bool;
  maxRedirects : option Z
}.

(** [{}] *)
Definition empty : t :=
  {| method := None; headers := None; body := None; proxy := None;
     timeout := None; responseType := None; followRedirect := None;
     maxRedirects := None |}.
End RequestOptions.

(** [data: any] of a response: what each [responseType] produces. *)
Inductive ResponseData :=
| DataText (s : string)
| DataJson (v : JsValue)
| DataBuffer (b : list byte).

Module Response.
(** [headers] holds the own properties of the object; a value is [None]
    where the source stores [undefined]. *)
Record t := {
  data : ResponseData;
  status : Z;
  statusText : string;
  headers : gmap string (option string);
  url : string
}.
End Response.

(** ** The host *)

(** The network context a request runs on: [session.defaultSession], the
    session of a partition, or [null] once [cleanup] has dropped it. *)
Inductive Session := DefaultSession | PartitionSession (partition : string) | NullSession.

Inductive RedirectMode := follow | manual.

(** The calls [request] makes on the host, in the order it makes them. *)
Inductive HostCall :=
| session_fromPartition (partition : string) (cache : bool)
| setProxy (on : Session) (proxyRules : string)
| net_request (method : Method) (url : string) (session : Session)
    (redirect : RedirectMode) (useSessionCookies : bool)
| setHeader (key value : string)
| setTimeout (ms : Z)
| clearTimeout
| req_abort
| req_write (chunk : Body) (encoding : option string)
| req_end.

(** What the host answers during one call of [request]. *)
Record Host := {
  Date_now : Z;
  (** [Math.random()], as the template literal prints it *)
  Math_random : string;
  (** [setProxy] rejects with this error *)
  setProxy_rejects : option JsError;
  (** [net.request] throws this error *)
  net_request_throws : option JsError;
  (** [req.setHeader(key, value)] throws this error *)
  setHeader_throws : string -> string -> option JsError
}.

(** What the host emits afterwards. A response event creates the next
    [res] object; its [data], [end] and [error] events name it by its
    index. [timer_fires] is the expiry of the timer of [setTimeout]. *)
Inductive Event :=
| req_redirect
| req_response (statusCode : Z) (statusMessage : string)
    (rawHeaders : option (list string))
| res_data (res : nat) (chunk : list byte)
| res_end (res : nat)
| res_error (res : nat) (error : JsError)
| req_error (error : JsError)
| req_abort_event
| timer_fires.

(** ** The promise and the state of one call *)

(** The places where [request] calls [reject]: the timer callback, the
    redirect listener, the [catch] block of the [end] listener, the
    [error] listeners of [res] and of [req], the [abort] listener and the
    handler of [.catch]. *)
Inductive Site :=
| at_timeout | at_redirect | at_parse | at_res_error | at_req_error
| at_abort | at_catch.

Inductive Outcome :=
| Resolved (r : Response.t)
| Rejected (site : Site) (reason : JsError).

Inductive Timer := NoTimer | Armed | Cleared | Fired.

(** The [res] object of a response event, with what its handlers close
    over. *)
Record Res := {
  statusCode : Z;
  statusMessage : string;
  responseHeaders : gmap string (option string)
}.

Record State := {
  (** the promise: [None] while pending, then its first outcome for good *)
  promise : option Outcome;
  (** every outcome passed to [resolve] or [reject], oldest first *)
  settle_calls : list Outcome;
  (** the calls made on the host, oldest first *)
  calls : list HostCall;
  sessionToUse : Session;
  tempPartition : option string;
  (** the listeners of [req] are registered *)
  listening : bool;
  (** [timeoutId] is [undefined] exactly when the timer is [NoTimer] *)
  timeoutId : Timer;
  chunks : list (list byte);
  redirectCount : Z;
  responses : list Res
}.

Definition initial : State :=
  {| promise := None; settle_calls := []; calls := [];
     sessionToUse := DefaultSession; tempPartition := None;
     listening := false; timeoutId := NoTimer; chunks := [];
     redirectCount := 0; responses := [] |}.

(** *** A state monad for the handlers *)

Definition M (A : Type) : Type := State -> A * State.

Definition ret {A} (a : A) : M A := fun s => (a, s).
Definition bind {A B} (m : M A) (k : A -> M B) : M B :=
  fun s => let (a, s') := m s in k a s'.
Definition exec {A} (m : M A) (s : State) : State := snd (m s).

Declare Scope handler_scope.
Delimit Scope handler_scope with handler.
Notation "x <- m ;; k" := (bind m (fun x => k))
  (at level 100, m at next level, right associativity) : handler_scope.
Notation "m ;; k" := (bind m (fun _ => k))
  (at level 100, right associativity) : handler_scope.

Definition read {A} (f : State -> A) : M A := fun s => (f s, s).
Definition modify (f : State -> State) : M unit := fun s => (tt, f s).

Definition with_promise o s :=
  {| promise := o; settle_calls := settle_calls s; calls := calls s;
     sessionToUse := sessionToUse s; tempPartition := tempPartition s;
     listening := listening s; timeoutId := timeoutId s; chunks := chunks s;
     redirectCount := redirectCount s; responses := responses s |}.
Definition with_settle_calls l s :=
  {| promise := promise s; settle_calls := l; calls := calls s;
     sessionToUse := sessionToUse s; tempPartition := tempPartition s;
     listening := listening s; timeoutId := timeoutId s; chunks := chunks s;
     redirectCount := redirectCount s; responses := responses s |}.
Definition with_calls l s :=
  {| promise := promise s; settle_calls := settle_calls s; calls := l;
     sessionToUse := sessionToUse s; tempPartition := tempPartition s;
     listening := listening s; timeoutId := timeoutId s; chunks := chunks s;
     redirectCount := redirectCount s; responses := responses s |}.
Definition with_sessionToUse x s :=
  {| promise := promise s; settle_calls := settle_calls s; calls := calls s;
     sessionToUse := x; tempPartition := tempPartition s;
     listening := listening s; timeoutId := timeoutId s; chunks := chunks s;
     redirectCount := redirectCount s; responses := responses s |}.
Definition with_tempPartition x s :=
  {| promise := promise s; settle_calls := settle_calls s; calls := calls s;
     sessionToUse := sessionToUse s; tempPartition := x;
     listening := listening s; timeoutId := timeoutId s; chunks := chunks s;
     redirectCount := redirectCount s; responses := responses s |}.
Definition with_listening x s :=
  {| promise := promise s; settle_calls := settle_calls s; calls := calls s;
     sessionToUse := sessionToUse s; tempPartition := tempPartition s;
     listening := x; timeoutId := timeoutId s; chunks := chunks s;
     redirectCount := redirectCount s; responses := responses s |}.
Definition with_timeoutId x s :=
  {| promise := promise s; settle_calls := settle_calls s; calls := calls s;
     sessionToUse := sessionToUse s; tempPartition := tempPartition s;
     listening := listening s; timeoutId := x; chunks := chunks s;
     redirectCount := redirectCount s; responses := responses s |}.
Definition with_chunks x s :=
  {| promise := promise s; settle_calls := settle_calls s; calls := calls s;
     sessionToUse := sessionToUse s; tempPartition := tempPartition s;
     listening := listening s; timeoutId := timeoutId s; chunks := x;
     redirectCount := redirectCount s; responses := responses s |}.
Definition with_redirectCount x s :=
  {| promise := promise s; settle_calls := settle_calls s; calls := calls s;
     sessionToUse := sessionToUse s; tempPartition := tempPartition s;
     listening := listening s; timeoutId := timeoutId s; chunks := chunks s;
     redirectCount := x; responses := responses s |}.
Definition with_responses x s :=
  {| promise := promise s; settle_calls := settle_calls s; calls := calls s;
     sessionToUse := sessionToUse s; tempPartition := tempPartition s;
     listening := listening s; timeoutId := timeoutId s; chunks := chunks s;
     redirectCount := redirectCount s; responses := x |}.

(** A call on the host. *)
Definition call (c : HostCall) : M unit :=
  modify (fun s => with_calls (calls s ++ [c]) s).

(** [resolve] and [reject] of the promise: the first call settles it,
    every later call changes nothing. *)
Definition settle (o : Outcome) : M unit :=
  modify (fun s =>
    with_settle_calls (settle_calls s ++ [o])
      (match promise s with
       | None => with_promise (Some o) s
       | Some _ => s
       end)).

Definition resolve (r : Response.t) : M unit := settle (Resolved r).
Definition reject (site : Site) (reason : JsError) : M unit :=
  settle (Rejected site reason).

(** ** [request] *)

Definition show_protocol (p : ProxyProtocol) : string :=
  match p with http => "http" | https => "https" | socks5 => "socks5" end.

(** [responseHeaders[key] = value] on an object created by [{}], for a
    value that is a string or [undefined]: the key becomes an own
    property, except __proto__, which reaches the setter of
    [Object.prototype]; that setter ignores a value that is not an object
    and stores nothing. *)
Definition assign_header (responseHeaders : gmap string (option string))
    (key : string) (value : option string) : gmap string (option string) :=
  if String.eqb key "__proto__" then responseHeaders
  else <[key := value]> responseHeaders.

(** The loop over [rawHeaders], two entries at a time; a name without a
    value gets [undefined]. *)
Fixpoint extract_headers (rawHeaders : list string)
    (responseHeaders : gmap string (option string))
    : gmap string (option string) :=
  match rawHeaders with
  | [] => responseHeaders
  | [key] => assign_header responseHeaders (toLowerCase key) None
  | key :: value :: rest =>
      extract_headers rest
        (assign_header responseHeaders (toLowerCase key) (Some value))
  end.

(** [if (body)]: an empty string is not written. *)
Definition body_truthy (b : option Body) : bool :=
  match b with
  | Some (BodyString s) => negb (String.eqb s "")
  | Some (BodyBuffer _) => true
  | None => false
  end.

Section Request.
Context {rt : Runtime}.
Variable url : string.
Variable options : RequestOptions.t.
(** the store [options.headers] points into *)
Variable heap : Heap.

(** The destructuring of [options], with its defaults. *)
Definition method : Method := default GET (RequestOptions.method options).
Definition headers : JsObj string :=
  match RequestOptions.headers options with
  | Some l => default [] (heap !! l)
  | None => []
  end.
Definition body : option Body := RequestOptions.body options.
Definition proxy : option ProxyOption := RequestOptions.proxy options.
Definition timeout : Z := default 30000 (RequestOptions.timeout options).
Definition responseType : ResponseType :=
  default text (RequestOptions.responseType options).
Definition followRedirect : bool :=
  default true (RequestOptions.followRedirect options).
Definition maxRedirects : Z := default 20 (RequestOptions.maxRedirects options).

Local Open Scope handler_scope.

(** [setupProxy]: the result is the error its promise rejects with. *)
Definition setupProxy (h : Host) : M (option JsError) :=
  match proxy with
  | Some (ProxyTo p) =>
      let partition :=
        "temp-request-" +:+ show_Z (Date_now h) +:+ "-" +:+ Math_random h in
      modify (with_tempPartition (Some partition)) ;;
      call (session_fromPartition partition false) ;;
      modify (with_sessionToUse (PartitionSession partition)) ;;
      let proxyUrl :=
        show_protocol (protocol p) +:+ "://" +:+ host p +:+ ":" +:+ show_Z (port p) in
      call (setProxy (PartitionSession partition) proxyUrl) ;;
      ret (setProxy_rejects h)
  | _ => ret None
  end.

Definition cleanup : M unit :=
  t <- read tempPartition ;;
  if truthy t then modify (with_sessionToUse NullSession) else ret tt.

(** [if (timeoutId) clearTimeout(timeoutId)] *)
Definition clear_timer : M unit :=
  t <- read timeoutId ;;
  match t with
  | NoTimer => ret tt
  | Armed => call clearTimeout ;; modify (with_timeoutId Cleared)
  | Cleared | Fired => call clearTimeout
  end.

(** The callback of [setTimeout]. *)
Definition on_timeout : M unit :=
  call req_abort ;;
  cleanup ;;
  reject at_timeout
    (new_Error ("Request timeout after " +:+ show_Z timeout +:+ "ms")).

Definition on_redirect : M unit :=
  modify (fun s => with_redirectCount (redirectCount s + 1) s) ;;
  n <- read redirectCount ;;
  if maxRedirects <? n then
    call req_abort ;;
    cleanup ;;
    clear_timer ;;
    reject at_redirect
      (new_Error ("Too many redirects (>" +:+ show_Z maxRedirects +:+ ")"))
  else ret tt.

Definition on_response (statusCode : Z) (statusMessage : string)
    (rawHeaders : option (list string)) : M unit :=
  let responseHeaders := extract_headers (default [] rawHeaders) ∅ in
  modify (fun s =>
    with_responses
      (responses s ++
         [{| statusCode := statusCode; statusMessage := statusMessage;
             responseHeaders := responseHeaders |}]) s).

Definition on_data (chunk : list byte) : M unit :=
  modify (fun s => with_chunks (chunks s ++ [chunk]) s).

Definition on_end (res : Res) : M unit :=
  cleanup ;;
  clear_timer ;;
  cs <- read chunks ;;
  let buffer := concat cs in
  let respond data :=
    resolve {| Response.data := data;
               Response.status := statusCode res;
               Response.statusText := statusMessage res;
               Response.headers := responseHeaders res;
               Response.url := url |} in
  match responseType with
  | json =>
      match JSON_parse (utf8_decode buffer) with
      | inr v => respond (DataJson v)
      | inl error =>
          reject at_parse
            (new_Error ("Failed to parse response: " +:+ error_toString error))
      end
  | arraybuffer => respond (DataBuffer buffer)
  | text => respond (DataText (utf8_decode buffer))
  end.

Definition on_res_error (error : JsError) : M unit :=
  cleanup ;; clear_timer ;; reject at_res_error error.

Definition on_req_error (error : JsError) : M unit :=
  cleanup ;; clear_timer ;; reject at_req_error error.

Definition on_abort : M unit :=
  cleanup ;; clear_timer ;; reject at_abort (new_Error "Request aborted").

(** The handler of [.catch]. *)
Definition on_catch (error : JsError) : M unit :=
  cleanup ;;
  reject at_catch
    (new_Error ("Failed to setup proxy: " +:+ error_toString error)).

(** [Object.entries(headers).forEach(...)]: stops at the first
    [setHeader] that throws. *)
Fixpoint set_headers (h : Host) (entries : JsObj string) : M (option JsError) :=
  match entries with
  | [] => ret None
  | (key, value) :: rest =>
      call (setHeader key value) ;;
      match setHeader_throws h key value with
      | Some e => ret (Some e)
      | None => set_headers h rest
      end
  end.

(** The callback of [.then]: the result is the error it throws. A call
    on the host is recorded before the host answers it, so one that
    throws is recorded too. *)
Definition issue (h : Host) : M (option JsError) :=
  session <- read sessionToUse ;;
  call (net_request method url session
          (if followRedirect then follow else manual) true) ;;
  match net_request_throws h with
  | Some e => ret (Some e)
  | None =>
      thrown <- set_headers h headers ;;
      match thrown with
      | Some e => ret (Some e)
      | None =>
          (if 0 <? timeout
           then call (setTimeout timeout) ;; modify (with_timeoutId Armed)
           else ret tt) ;;
          modify (with_listening true) ;;
          (if body_truthy body then
             match body with
             | Some (BodyString s) => call (req_write (BodyString s) (Some "utf-8"))
             | Some (BodyBuffer b) => call (req_write (BodyBuffer b) None)
             | None => ret tt
             end
           else ret tt) ;;
          call req_end ;;
          ret None
      end
  end.

(** [setupProxy().then(...).catch(...)]: the body of [setupProxy] runs
    at once, up to its [await], and [request] returns; when the promise
    of [setupProxy] has settled, the callback of [.then] runs, or the
    handler of [.catch] if that promise was rejected or the callback
    threw. [start] is the whole of it: the state it leaves is that of
    the call before the first event of the request or of the timer. *)
Definition start (h : Host) : M unit :=
  failed <- setupProxy h ;;
  match failed with
  | Some e => on_catch e
  | None =>
      thrown <- issue h ;;
      match thrown with
      | Some e => on_catch e
      | None => ret tt
      end
  end.

(** One event of the host. An event of [req] runs its listener once
    the listeners are registered, an event of a [res] object once that
    object exists, and the timer only while it is armed. *)
Definition handle (e : Event) : M unit :=
  s <- read id ;;
  match e with
  | req_redirect => if listening s then on_redirect else ret tt
  | req_response c m raw => if listening s then on_response c m raw else ret tt
  | res_data i chunk =>
      match responses s !! i with Some _ => on_data chunk | None => ret tt end
  | res_end i =>
      match responses s !! i with Some res => on_end res | None => ret tt end
  | res_error i error =>
      match responses s !! i with Some _ => on_res_error error | None => ret tt end
  | req_error error => if listening s then on_req_error error else ret tt
  | req_abort_event => if listening s then on_abort else ret tt
  | timer_fires =>
      match timeoutId s with
      | Armed => modify (with_timeoutId Fired) ;; on_timeout
      | _ => ret tt
      end
  end.

Definition deliver (events : list Event) (s : State) : State :=
  fold_left (fun s e => exec (handle e) s) events s.

(** The state of the call once the setup has run and the host has then
    emitted [events]; its [promise] is the promise [request] returned. *)
Definition request (h : Host) (events : list Event) : State :=
  deliver events (exec (start h) initial).
End Request.

(** ** The wrappers *)

(** [{...options}] *)
Definition spread (options : option RequestOptions.t) : RequestOptions.t :=
  default RequestOptions.empty options.

(** [typeof data === 'string'] *)
Definition is_string (data : JsValue) : bool :=
  match data with VStr _ => true | _ => false end.

Section Wrappers.
Context {rt : Runtime}.

(** [request(url, { ...options, method })] *)
Definition without_body (m : Method) (url : string)
    (options : option RequestOptions.t) (heap : Heap)
    (h : Host) (events : list Event) : State :=
  let o := spread options in
  request url
    {| RequestOptions.method := Some m;
       RequestOptions.headers := RequestOptions.headers o;
       RequestOptions.body := RequestOptions.body o;
       RequestOptions.proxy := RequestOptions.proxy o;
       RequestOptions.timeout := RequestOptions.timeout o;
       RequestOptions.responseType := RequestOptions.responseType o;
       RequestOptions.followRedirect := RequestOptions.followRedirect o;
       RequestOptions.maxRedirects := RequestOptions.maxRedirects o |}
    heap h events.

Definition get := without_body GET.
Definition del := without_body DELETE.

(** The body shared by [post], [put] and [patch] up to the call of
    [request]: what [JSON.stringify] throws or the options handed to
    [request], and the store as the wrapper leaves it. *)
Definition prepare (m : Method) (data : JsValue)
    (options : option RequestOptions.t) (heap : Heap)
    : (JsError + RequestOptions.t) * Heap :=
  let serialized :=
    match data with
    | VStr s => inr (Some s)
    | _ => JSON_stringify data
    end in
  match serialized with
  | inl error => (inl error, heap)
  | inr body =>
      (* options?.headers || {} *)
      let '(headers, heap) :=
        match options ≫= RequestOptions.headers with
        | Some l => (l, heap)
        | None => let l := fresh (dom heap) in (l, <[l := []]> heap)
        end in
      let object := default [] (heap !! headers) in
      let heap :=
        if negb (is_string data) && negb (truthy (js_get object "content-type"))
        then <[headers := js_set object "content-type" "application/json"]> heap
        else heap in
      let o := spread options in
      (inr {| RequestOptions.method := Some m;
              RequestOptions.headers := Some headers;
              RequestOptions.body := BodyString <$> body;
              RequestOptions.proxy := RequestOptions.proxy o;
              RequestOptions.timeout := RequestOptions.timeout o;
              RequestOptions.responseType := RequestOptions.responseType o;
              RequestOptions.followRedirect := RequestOptions.followRedirect o;
              RequestOptions.maxRedirects := RequestOptions.maxRedirects o |},
       heap)
  end.

(** The wrapper throws or returns the state of the call it delegates to
    [request]; either way the caller sees the store it leaves. *)
Definition with_body (m : Method) (url : string) (data : JsValue)
    (options : option RequestOptions.t) (heap : Heap)
    (h : Host) (events : list Event) : (JsError + State) * Heap :=
  match prepare m data options heap with
  | (inl error, heap') => (inl error, heap')
  | (inr o, heap') => (inr (request url o heap' h events), heap')
  end.

Definition post := with_body POST.
Definition put := with_body PUT.
Definition patch := with_body PATCH.
End Wrappers.

(** ** A reference codec

    An executable [Runtime] for the examples: buffers are read as the
    bytes of their text, and JSON covers null, booleans, integers,
    strings with the one-letter escapes, arrays and objects. *)
Module Codec.
Definition dquote : ascii := "034"%char.
Definition backslash : ascii := "092"%char.

Definition hex_digit (n : nat) : ascii :=
  nth n (list_ascii_of_string "0123456789abcdef") "0"%char.

Definition quote_char (c : ascii) : string :=
  let n := nat_of_ascii c in
  if Ascii.eqb c dquote then String backslash (String dquote "")
  else if Ascii.eqb c backslash then String backslash (String backslash "")
  else if Nat.eqb n 8 then String backslash "b"
  else if Nat.eqb n 9 then String backslash "t"
  else if Nat.eqb n 10 then String backslash "n"
  else if Nat.eqb n 12 then String backslash "f"
  else if Nat.eqb n 13 then String backslash "r"
  else if Nat.ltb n 32 then
    String backslash
      ("u00" +:+ String (hex_digit (n / 16)) (String (hex_digit (n mod 16)) ""))
  else String c "".

Fixpoint quote_chars (s : string) : string :=
  match s with
  | EmptyString => EmptyString
  | String c s' => quote_char c +:+ quote_chars s'
  end.

Definition quote (s : string) : string :=
  String dquote (quote_chars s +:+ String dquote "").

Fixpoint join (sep : string) (l : list string) : string :=
  match l with
  | [] => ""
  | [s] => s
  | s :: l' => s +:+ sep +:+ join sep l'
  end.

Definition bigint_error : JsError :=
  {| name := "TypeError"; message := "Do not know how to serialize a BigInt" |}.

Fixpoint stringify (v : JsValue) : JsError + option string :=
  match v with
  | VUndefined => inr None
  | VNull => inr (Some "null")
  | VBool b => inr (Some (if b then "true" else "false"))
  | VNum z => inr (Some (show_Z z))
  | VBigInt _ => inl bigint_error
  | VStr s => inr (Some (quote s))
  | VArr l =>
      let fix elements (l : list JsValue) : JsError + list string :=
        match l with
        | [] => inr []
        | v :: l' =>
            match stringify v, elements l' with
            | inl e, _ => inl e
            | _, inl e => inl e
            | inr s, inr ss => inr (default "null" s :: ss)
            end
        end in
      match elements l with
      | inl e => inl e
      | inr ss => inr (Some ("[" +:+ join "," ss +:+ "]"))
      end
  | VObj l =>
      let fix members (l : list (string * JsValue)) : JsError + list string :=
        match l with
        | [] => inr []
        | (k, v) :: l' =>
            match stringify v, members l' with
            | inl e, _ => inl e
            | _, inl e => inl e
            | inr None, inr ss => inr ss
            | inr (Some s), inr ss => inr ((quote k +:+ ":" +:+ s) :: ss)
            end
        end in
      match members l with
      | inl e => inl e
      | inr ss => inr (Some ("{" +:+ join "," ss +:+ "}"))
      end
  end.
End Codec.

Module Parser.
Definition syntax_error : JsError :=
  {| name := "SyntaxError"; message := "Unexpected token in JSON" |}.

Definition is_ws (c : ascii) : bool :=
  let n := nat_of_ascii c in
  (Nat.eqb n 32 || Nat.eqb n 9 || Nat.eqb n 10 || Nat.eqb n 13)%bool.

Definition is_digit (c : ascii) : bool :=
  let n := nat_of_ascii c in (Nat.leb 48 n && Nat.leb n 57)%bool.

Fixpoint skip_ws (s : list ascii) : list ascii :=
  match s with
  | c :: s' => if is_ws c then skip_ws s' else s
  | [] => []
  end.

(** The characters of a string literal after its opening quote. *)
Fixpoint string_chars (s : list ascii) : option (string * list ascii) :=
  match s with
  | [] => None
  | c :: s' =>
      if Ascii.eqb c Codec.dquote then Some ("", s')
      else if Ascii.eqb c Codec.backslash then
        match s' with
        | e :: s'' =>
            let unescaped :=
              if Ascii.eqb e Codec.dquote then Some Codec.dquote
              else if Ascii.eqb e Codec.backslash then Some Codec.backslash
              else if Ascii.eqb e "/" then Some "/"%char
              else if Ascii.eqb e "b" then Some "008"%char
              else if Ascii.eqb e "t" then Some "009"%char
              else if Ascii.eqb e "n" then Some "010"%char
              else if Ascii.eqb e "f" then Some "012"%char
              else if Ascii.eqb e "r" then Some "013"%char
              else None in
            match unescaped, string_chars s'' with
            | Some u, Some (str, rest) => Some (String u str, rest)
            | _, _ => None
            end
        | [] => None
        end
      else if Nat.ltb (nat_of_ascii c) 32 then None
      else
        match string_chars s' with
        | Some (str, rest) => Some (String c str, rest)
        | None => None
        end
  end.

(** The digits of a number, most significant first. *)
Fixpoint digits (acc : Z) (s : list ascii) : Z * list ascii :=
  match s with
  | c :: s' =>
      if is_digit c then digits (10 * acc + (Z.of_nat (nat_of_ascii c) - 48)) s'
      else (acc, s)
  | [] => (acc, [])
  end.

(** An integer: no leading zero, no fraction, no exponent. *)
Definition unsigned (s : list ascii) : option (Z * list ascii) :=
  match s with
  | c :: s' =>
      if Ascii.eqb c "0" then
        match s' with
        | d :: _ => if is_digit d then None else Some (0, s')
        | [] => Some (0, s')
        end
      else if is_digit c then Some (digits 0 s)
      else None
  | [] => None
  end.

Definition integer (s : list ascii) : option (Z * list ascii) :=
  match s with
  | c :: s' =>
      if Ascii.eqb c "-" then
        match unsigned s' with Some (z, r) => Some (- z, r) | None => None end
      else unsigned s
  | [] => None
  end.

Definition ends_number (s : list ascii) : bool :=
  match s with
  | c :: _ => negb (Ascii.eqb c "." || Ascii.eqb c "e" || Ascii.eqb c "E")
  | [] => true
  end.

Definition literal (word : string) (v : JsValue) (s : list ascii)
    : option (JsValue * list ascii) :=
  let w := list_ascii_of_string word in
  if bool_decide (take (length w) s = w) then Some (v, drop (length w) s)
  else None.

Fixpoint value (fuel : nat) (s : list ascii) : option (JsValue * list ascii) :=
  match fuel with
  | O => None
  | S fuel =>
      match skip_ws s with
      | [] => None
      | c :: s' =>
          if Ascii.eqb c "n" then literal "null" VNull (c :: s')
          else if Ascii.eqb c "t" then literal "true" (VBool true) (c :: s')
          else if Ascii.eqb c "f" then literal "false" (VBool false) (c :: s')
          else if Ascii.eqb c Codec.dquote then
            match string_chars s' with
            | Some (str, rest) => Some (VStr str, rest)
            | None => None
            end
          else if Ascii.eqb c "[" then
            match skip_ws s' with
            | d :: rest =>
                if Ascii.eqb d "]" then Some (VArr [], rest)
                else
                  match elements fuel s' with
                  | Some (l, rest) => Some (VArr l, rest)
                  | None => None
                  end
            | [] => None
            end
          else if Ascii.eqb c "{" then
            match skip_ws s' with
            | d :: rest =>
                if Ascii.eqb d "}" then Some (VObj [], rest)
                else
                  match members fuel s' with
                  | Some (l, rest) => Some (VObj l, rest)
                  | None => None
                  end
            | [] => None
            end
          else
            match integer (c :: s') with
            | Some (z, rest) => if ends_number rest then Some (VNum z, rest) else None
            | None => None
            end
      end
  end
with elements (fuel : nat) (s : list ascii) : option (list JsValue * list ascii) :=
  match fuel with
  | O => None
  | S fuel =>
      match value fuel s with
      | Some (v, rest) =>
          match skip_ws rest with
          | c :: rest' =>
              if Ascii.eqb c "]" then Some ([v], rest')
              else if Ascii.eqb c "," then
                match elements fuel rest' with
                | Some (l, rest'') => Some (v :: l, rest'')
                | None => None
                end
              else None
          | [] => None
          end
      | None => None
      end
  end
with members (fuel : nat) (s : list ascii)
    : option (list (string * JsValue) * list ascii) :=
  match fuel with
  | O => None
  | S fuel =>
      match skip_ws s with
      | q :: s' =>
          if Ascii.eqb q Codec.dquote then
            match string_chars s' with
            | Some (key, rest) =>
                match skip_ws rest with
                | colon :: rest' =>
                    if Ascii.eqb colon ":" then
                      match value fuel rest' with
                      | Some (v, rest'') =>
                          match skip_ws rest'' with
                          | c :: rest3 =>
                              if Ascii.eqb c "}" then Some ([(key, v)], rest3)
                              else if Ascii.eqb c "," then
                                match members fuel rest3 with
                                | Some (l, rest4) => Some ((key, v) :: l, rest4)
                                | None => None
                                end
                              else None
                          | [] => None
                          end
                      | None => None
                      end
                    else None
                | [] => None
                end
            | None => None
            end
          else None
      | [] => None
      end
  end.

(** A later member replaces an earlier one of the same key. *)
Fixpoint normalize (v : JsValue) : JsValue :=
  match v with
  | VArr l => VArr (map normalize l)
  | VObj l =>
      VObj (fold_left (fun o kv => js_set o (fst kv) (normalize (snd kv))) l [])
  | _ => v
  end.

(** The fuel is spent one unit per value, element or member; the
    length of the text plus one is supplied. *)
Definition parse (text : string) : JsError + JsValue :=
  let s := list_ascii_of_string text in
  match value (S (length s)) s with
  | Some (v, rest) =>
      match skip_ws rest with
      | [] => inr (normalize v)
      | _ :: _ => inl syntax_error
      end
  | None => inl syntax_error
  end.
End Parser.

Definition reference_runtime : Runtime :=
  {| utf8_decode := string_of_list_byte;
     JSON_parse := Parser.parse;
     JSON_stringify := Codec.stringify |}.

(** ** Notions used by the statements *)

(** The errors [request] creates, as its template literals spell them. *)
Definition timeout_error (options : RequestOptions.t) : JsError :=
  new_Error ("Request timeout after " +:+ show_Z (timeout options) +:+ "ms").
Definition redirect_error (options : RequestOptions.t) : JsError :=
  new_Error ("Too many redirects (>" +:+ show_Z (maxRedirects options) +:+ ")").
Definition parse_error (cause : JsError) : JsError :=
  new_Error ("Failed to parse response: " +:+ error_toString cause).
Definition setup_error (cause : JsError) : JsError :=
  new_Error ("Failed to setup proxy: " +:+ error_toString cause).

(** The name of the partition and the proxy rules of [setupProxy]. *)
Definition partition_name (h : Host) : string :=
  "temp-request-" +:+ show_Z (Date_now h) +:+ "-" +:+ Math_random h.
Definition proxy_rules (p : Proxy) : string :=
  show_protocol (protocol p) +:+ "://" +:+ host p +:+ ":" +:+ show_Z (port p).
Definition redirect_mode (options : RequestOptions.t) : RedirectMode :=
  if followRedirect options then follow else manual.

(** The redirect events among the events of a call. *)
Definition is_redirect (e : Event) : bool :=
  match e with req_redirect => true | _ => false end.
Definition redirects (events : list Event) : Z :=
  Z.of_nat (length (filter (fun e => is_redirect e = true) events)).

(** The calls that choose or create a network context. *)
Definition context_call (c : HostCall) : bool :=
  match c with
  | session_fromPartition _ _ | setProxy _ _ | net_request _ _ _ _ _ => true
  | _ => false
  end.

Definition is_setTimeout (c : HostCall) : bool :=
  match c with setTimeout _ => true | _ => false end.


(** What holds of the state of a call after every event. *)
Record Inv (options : RequestOptions.t) (s : State) : Prop := {
  inv_first : promise s = head (settle_calls s);
  inv_pending : promise s = None ->
    listening s = true /\
    timeoutId s = (if 0 <? timeout options then Armed else NoTimer);
  inv_armed : timeoutId s = Armed -> promise s = None;
  inv_fired : timeoutId s = Fired ->
    promise s = Some (Rejected at_timeout (timeout_error options));
  inv_disabled : timeout options <= 0 -> timeoutId s = NoTimer;
  inv_responses : responses s <> [] -> listening s = true;
  inv_unissued : listening s = false -> timeoutId s = NoTimer;
  inv_started : listening s = true -> 0 < timeout options ->
    timeoutId s <> NoTimer
}.

(** The response a [res] object resolves the call with, given the bytes
    received; [None] when they fail to parse. *)
Definition response_of {rt : Runtime} (url : string)
    (options : RequestOptions.t) (res : Res) (buffer : list byte)
    : JsError + Response.t :=
  let respond data :=
    {| Response.data := data;
       Response.status := statusCode res;
       Response.statusText := statusMessage res;
       Response.headers := responseHeaders res;
       Response.url := url |} in
  match responseType options with
  | text => inr (respond (DataText (utf8_decode buffer)))
  | arraybuffer => inr (respond (DataBuffer buffer))
  | json =>
      match JSON_parse (utf8_decode buffer) with
      | inr v => inr (respond (DataJson v))
      | inl e => inl e
      end
  end.

(** Why the handler of event [e], run in state [s], passes outcome [o]
    to [resolve] or [reject]. *)
Definition explains {rt : Runtime} (url : string) (options : RequestOptions.t)
    (e : Event) (s : State) (o : Outcome) : Prop :=
  match o with
  | Resolved r =>
      exists i res, e = res_end i /\ responses s !! i = Some res /\
        response_of url options res (concat (chunks s)) = inr r
  | Rejected at_timeout reason =>
      e = timer_fires /\ timeoutId s = Armed /\ reason = timeout_error options
  | Rejected at_redirect reason =>
      e = req_redirect /\ listening s = true /\
      maxRedirects options < redirectCount s + 1 /\
      reason = redirect_error options
  | Rejected at_parse reason =>
      exists i res cause, e = res_end i /\ responses s !! i = Some res /\
        response_of url options res (concat (chunks s)) = inl cause /\
        reason = parse_error cause
  | Rejected at_res_error reason =>
      exists i, e = res_error i reason /\ is_Some (responses s !! i)
  | Rejected at_req_error reason => e = req_error reason /\ listening s = true
  | Rejected at_abort reason =>
      e = req_abort_event /\ listening s = true /\
      reason = new_Error "Request aborted"
  | Rejected at_catch _ => False
  end.

(** The handler of event [e], run in state [s], calls [resolve] or
    [reject]. *)
Definition terminal (options : RequestOptions.t) (s : State) (e : Event)
    : bool :=
  match e with
  | req_redirect =>
      listening s && (maxRedirects options <? redirectCount s + 1)
  | req_response _ _ _ | res_data _ _ => false
  | res_end i | res_error i _ =>
      match responses s !! i with Some _ => true | None => false end
  | req_error _ | req_abort_event => listening s
  | timer_fires => match timeoutId s with Armed => true | _ => false end
  end.

(** The chunks the [data] listeners of a call receive: a [data] event
    counts once the [res] object it names exists. *)
Definition receive (acc : nat * list (list byte)) (e : Event)
    : nat * list (list byte) :=
  match e with
  | req_response _ _ _ => (S (fst acc), snd acc)
  | res_data i chunk =>
      if (i <? fst acc)%nat then (fst acc, snd acc ++ [chunk]) else acc
  | _ => acc
  end.
Definition received (events : list Event) : list (list byte) :=
  snd (fold_left receive events (O, [])).

(** A raw header sequence: names and values alternate. *)
Definition alternate (pairs : list (string * string)) : list string :=
  flat_map (fun p => [fst p; snd p]) pairs.

(** The value of the last header whose lowercased name is [key]. *)
Fixpoint last_occurrence (pairs : list (string * string)) (key : string)
    : option string :=
  match pairs with
  | [] => None
  | (name, value) :: rest =>
      match last_occurrence rest key with
      | Some v => Some v
      | None => if String.eqb (toLowerCase name) key then Some value else None
      end
  end.

(** The caller supplied a header whose name is [key] up to case. *)
Definition supplies (o : JsObj string) (key : string) : bool :=
  existsb (fun kv => String.eqb (toLowerCase (fst kv)) key) o.

(** A host on which every call succeeds. *)
Definition quiet_host : Host :=
  {| Date_now := 1700000000000; Math_random := "0.25";
     setProxy_rejects := None; net_request_throws := None;
     setHeader_throws := fun _ _ => None |}.

(** ** Notions for the calls on the host *)

(** The calls of [setupProxy]. *)
Definition proxy_calls (options : RequestOptions.t) (h : Host) : list HostCall :=
  match proxy options with
  | Some (ProxyTo p) =>
      [session_fromPartition (partition_name h) false;
       setProxy (PartitionSession (partition_name h)) (proxy_rules p)]
  | _ => []
  end.

(** The session [net.request] is given. *)
Definition issued_session (options : RequestOptions.t) (h : Host) : Session :=
  match proxy options with
  | Some (ProxyTo _) => PartitionSession (partition_name h)
  | _ => DefaultSession
  end.

Definition issue_call (url : string) (options : RequestOptions.t) (h : Host)
    : HostCall :=
  net_request (method options) url (issued_session options h)
    (redirect_mode options) true.

(** One [setHeader] per entry, in the order of the entries. *)
Definition header_calls (entries : JsObj string) : list HostCall :=
  (fun kv => setHeader (fst kv) (snd kv)) <$> entries.

Definition timer_calls (options : RequestOptions.t) : list HostCall :=
  if 0 <? timeout options then [setTimeout (timeout options)] else [].

(** The write of the body: none for no body or an empty string. *)
Definition body_calls (b : option Body) : list HostCall :=
  match b with
  | Some (BodyString s) =>
      if String.eqb s "" then [] else [req_write (BodyString s) (Some "utf-8")]
  | Some (BodyBuffer bytes) => [req_write (BodyBuffer bytes) None]
  | None => []
  end.

(** The host answers every call of the setup: [setProxy] does not
    reject, and [net.request] and every [setHeader] do not throw. *)
Definition accepts (options : RequestOptions.t) (heap : Heap) (h : Host) : Prop :=
  (forall p, proxy options = Some (ProxyTo p) -> setProxy_rejects h = None)
  /\ net_request_throws h = None
  /\ Forall (fun kv => setHeader_throws h (fst kv) (snd kv) = None)
       (headers options heap).

(** The host refuses a call of the setup with [cause], after [request]
    has made the calls [sent] past those of the proxy setup: [setProxy]
    rejects, or [net.request] throws, or the first [setHeader] that
    throws does. *)
Definition refused (url : string) (options : RequestOptions.t) (heap : Heap)
    (h : Host) (cause : JsError) (sent : list HostCall) : Prop :=
  (sent = [] /\ setProxy_rejects h = Some cause
   /\ exists p, proxy options = Some (ProxyTo p))
  \/ ((forall p, proxy options = Some (ProxyTo p) -> setProxy_rejects h = None)
      /\ ((sent = [issue_call url options h]
           /\ net_request_throws h = Some cause)
          \/ (exists pre key value post,
                headers options heap = pre ++ (key, value) :: post
                /\ Forall (fun kv =>
                     setHeader_throws h (fst kv) (snd kv) = None) pre
                /\ setHeader_throws h key value = Some cause
                /\ net_request_throws h = None
                /\ sent = issue_call url options h
                          :: header_calls (pre ++ [(key, value)])))).

Definition is_net_request (c : HostCall) : bool :=
  match c with net_request _ _ _ _ _ => true | _ => false end.

Definition is_write (c : HostCall) : bool :=
  match c with req_write _ _ => true | _ => false end.

(** The calls the listeners and the timer callback make. *)
Definition handler_call (c : HostCall) : bool :=
  match c with req_abort | clearTimeout => true | _ => false end.

(** A call with the method of its [net.request] replaced. *)
Definition retarget (m : Method) (c : HostCall) : HostCall :=
  match c with
  | net_request _ u session mode cookies => net_request m u session mode cookies
  | _ => c
  end.

(** The state of a call without the record of its calls on the host. *)
Definition forget_calls (s : State) : State := with_calls [] s.

(** What the loop over the headers throws, and the calls it makes. *)
Fixpoint headers_outcome (h : Host) (entries : JsObj string)
    : option JsError * list HostCall :=
  match entries with
  | [] => (None, [])
  | (key, value) :: rest =>
      match setHeader_throws h key value with
      | Some e => (Some e, [setHeader key value])
      | None =>
          (fst (headers_outcome h rest),
           setHeader key value :: snd (headers_outcome h rest))
      end
  end.

(** The [res] objects of the response events, in their order. *)
Definition responses_of (events : list Event) : list Res :=
  omap (fun e =>
    match e with
    | req_response c m raw =>
        Some {| statusCode := c; statusMessage := m;
                responseHeaders := extract_headers (default [] raw) ∅ |}
    | _ => None
    end) events.

(** The outcome the handler of event [e] passes to [resolve] or
    [reject] when the request was issued, the call is pending and the
    events [pre] came before; [None] when it passes none. *)
Definition outcome_of {rt : Runtime} (url : string) (options : RequestOptions.t)
    (pre : list Event) (e : Event) : option Outcome :=
  match e with
  | req_redirect =>
      if maxRedirects options <? redirects pre + 1
      then Some (Rejected at_redirect (redirect_error options))
      else None
  | req_response _ _ _ | res_data _ _ => None
  | res_end i =>
      match responses_of pre !! i with
      | Some res =>
          Some match response_of url options res (concat (received pre)) with
               | inr r => Resolved r
               | inl cause => Rejected at_parse (parse_error cause)
               end
      | None => None
      end
  | res_error i error =>
      match responses_of pre !! i with
      | Some _ => Some (Rejected at_res_error error)
      | None => None
      end
  | req_error error => Some (Rejected at_req_error error)
  | req_abort_event => Some (Rejected at_abort (new_Error "Request aborted"))
  | timer_fires =>
      if 0 <? timeout options
      then Some (Rejected at_timeout (timeout_error options))
      else None
  end.

(** The first outcome among those of [events], which follow [pre]. *)
Fixpoint first_outcome_after {rt : Runtime} (url : string)
    (options : RequestOptions.t) (pre events : list Event) : option Outcome :=
  match events with
  | [] => None
  | e :: rest =>
      match outcome_of url options pre e with
      | Some o => Some o
      | None => first_outcome_after url options (pre ++ [e]) rest
      end
  end.

Definition first_outcome {rt : Runtime} (url : string)
    (options : RequestOptions.t) (events : list Event) : option Outcome :=
  first_outcome_after url options [] events.

(** The state of the call when [request] returns: the body of
    [setupProxy] has run up to its [await], and neither the callback of
    [.then] nor the handler of [.catch] has. *)
Definition at_return (options : RequestOptions.t) (h : Host) : State :=
  exec (setupProxy options h) initial.

(** A host whose [setProxy] fails. *)
Definition failing_proxy_host : Host :=
  {| Date_now := 1700000000000; Math_random := "0.25";
     setProxy_rejects := Some (new_Error "ERR_PROXY_CONNECTION_FAILED");
     net_request_throws := None;
     setHeader_throws := fun _ _ => None |}.

(** [{ method: 'PUT', body: 'hello', headers }], with [headers] the
    object at reference 0 *)
Definition body_options : RequestOptions.t :=
  {| RequestOptions.method := Some PUT; RequestOptions.headers := Some O;
     RequestOptions.body := Some (BodyString "hello");
     RequestOptions.proxy := None;
     RequestOptions.timeout := None;
     RequestOptions.responseType := None;
     RequestOptions.followRedirect := Some false;
     RequestOptions.maxRedirects := None |}.

(** [{ accept: 'text/html', 'X-Token': 'abc' }] *)
Definition two_headers : JsObj string :=
  [("accept", "text/html"); ("X-Token", "abc")].

(** [{ accept: 'text/html', 'x-note': 'a\nb', 'X-Token': 'abc' }] *)
Definition mixed_headers : JsObj string :=
  [("accept", "text/html"); ("x-note", "a" +:+ String "010"%char "b");
   ("X-Token", "abc")].

(** ** Sample inputs *)

Definition sample_url : string := "https://example.com/api".

(** [{ timeout: 100, responseType: 'json', maxRedirects: 3 }] *)
Definition sample_options : RequestOptions.t :=
  {| RequestOptions.method := None; RequestOptions.headers := None;
     RequestOptions.body := None; RequestOptions.proxy := None;
     RequestOptions.timeout := Some 100;
     RequestOptions.responseType := Some json;
     RequestOptions.followRedirect := None;
     RequestOptions.maxRedirects := Some 3 |}.

(** [{ responseType: 'arraybuffer' }] *)
Definition buffer_options : RequestOptions.t :=
  {| RequestOptions.method := None; RequestOptions.headers := None;
     RequestOptions.body := None; RequestOptions.proxy := None;
     RequestOptions.timeout := None;
     RequestOptions.responseType := Some arraybuffer;
     RequestOptions.followRedirect := None;
     RequestOptions.maxRedirects := None |}.

(** [{ proxy: false, timeout: 0 }] *)
Definition plain_options : RequestOptions.t :=
  {| RequestOptions.method := None; RequestOptions.headers := None;
     RequestOptions.body := None; RequestOptions.proxy := Some ProxyFalse;
     RequestOptions.timeout := Some 0;
     RequestOptions.responseType := None;
     RequestOptions.followRedirect := None;
     RequestOptions.maxRedirects := None |}.

(** [{ proxy: { protocol: 'socks5', host: '127.0.0.1', port: 7890 } }] *)
Definition sample_proxy : Proxy :=
  {| protocol := socks5; host := "127.0.0.1"; port := 7890 |}.
Definition proxied_options : RequestOptions.t :=
  {| RequestOptions.method := None; RequestOptions.headers := None;
     RequestOptions.body := None; RequestOptions.proxy := Some (ProxyTo sample_proxy);
     RequestOptions.timeout := None;
     RequestOptions.responseType := None;
     RequestOptions.followRedirect := None;
     RequestOptions.maxRedirects := None |}.

(** [{ headers }], where [headers] is the object at reference 0 *)
Definition headers_options : RequestOptions.t :=
  {| RequestOptions.method := None; RequestOptions.headers := Some O;
     RequestOptions.body := None; RequestOptions.proxy := None;
     RequestOptions.timeout := None;
     RequestOptions.responseType := None;
     RequestOptions.followRedirect := None;
     RequestOptions.maxRedirects := None |}.

Definition line_feed : ascii := "010"%char.

(** A host whose [setHeader] refuses a value that holds a line feed. *)
Definition strict_host : Host :=
  {| Date_now := 1700000000000; Math_random := "0.25";
     setProxy_rejects := None; net_request_throws := None;
     setHeader_throws := fun key value =>
       if existsb (Ascii.eqb line_feed) (list_ascii_of_string value)
       then Some (new_Error ("Invalid value for header '" +:+ key +:+ "'"))
       else None |}.

(** [{ 'x-note': 'a\nb' }] *)
Definition broken_headers : JsObj string :=
  [("x-note", "a" +:+ String line_feed "b")].

(** The bytes of the text [{"a":1}], in two chunks. *)
Definition json_chunks : list (list byte) :=
  [list_byte_of_string (String "{" (String Codec.dquote "a"));
   list_byte_of_string (String Codec.dquote ":1}")].

(** [{ x: 1 }] *)
Definition sample_data : JsValue := VObj [("x", VNum 1)].

(** Four redirects in a row. *)
Definition four_redirects : list Event :=
  [req_redirect; req_redirect; req_redirect; req_redirect].

(** The headers of the sample response, as the response object holds
    them. *)
Definition sample_headers : gmap string (option string) :=
  {[ "set-cookie" := Some "b=2"; "content-type" := Some "application/json" ]}.

(** A response with a repeated header, then its body in two chunks. *)
Definition sample_response : list Event :=
  [req_response 200 "OK"
     (Some ["Set-Cookie"; "a=1"; "Content-Type"; "application/json";
            "set-cookie"; "b=2"]);
   res_data O (list_byte_of_string (String "{" (String Codec.dquote "a")));
   res_data O (list_byte_of_string (String Codec.dquote ":1}"))].

(** The sample response, the end of its body, then an abort. *)
Definition response_then_abort : list Event :=
  sample_response ++ [res_end O; req_abort_event].

(** A response with a header named __proto__, then the end of its
    body. *)
Definition proto_response : list Event :=
  [req_response 200 "OK" (Some ["__proto__"; "v"; "X-A"; "1"]); res_end O].

Definition proto_headers : gmap string (option string) := {[ "x-a" := Some "1" ]}.

(** ** Proof tools *)

Ltac unfold_handlers :=
  unfold handle, on_redirect, on_response, on_data, on_end, on_res_error,
    on_req_error, on_abort, on_timeout, on_catch, cleanup, clear_timer,
    resolve, reject, settle, call, modify, read, bind, ret, exec in *.

(** Split on every scrutinee that does not itself wait for a split. *)
Ltac crunch :=
  repeat match goal with
  | |- context [match ?x with _ => _ end] =>
      lazymatch x with
      | context [match _ with _ => _ end] => fail
      | _ => destruct x eqn:?; simpl in *
      end
  end.

Ltac by_cases s e :=
  destruct s; simpl in *; destruct e; unfold_handlers; simpl; crunch;
  simpl in *.

Ltac use_tests :=
  repeat match goal with
  | H : ?b = true |- context [if ?b then _ else _] => rewrite H
  | H : ?b = false |- context [if ?b then _ else _] => rewrite H
  end;
  repeat match goal with
  | H : (_ <? _) = true |- _ => apply Z.ltb_lt in H
  | H : (_ <? _) = false |- _ => apply Z.ltb_ge in H
  end.

Ltac finish :=
  solve [use_tests; intuition (subst; simpl in *; try congruence; try lia)].

(** ** Objects *)

Lemma js_get_set_eq {V} (o : JsObj V) k v : js_get (js_set o k v) k = Some v.
Proof.
  induction o as [|[k' v'] o IH]; simpl.
  - by rewrite String.eqb_refl.
  - destruct (String.eqb k' k) eqn:E; simpl; rewrite E; auto.
Qed.

Lemma js_get_set_ne {V} (o : JsObj V) k k' v :
  k <> k' -> js_get (js_set o k v) k' = js_get o k'.
Proof.
  intros Hne. induction o as [|[k0 v0] o IH]; simpl.
  - destruct (String.eqb_spec k k'); [done | reflexivity].
  - destruct (String.eqb_spec k0 k) as [->|]; simpl.
    + destruct (String.eqb_spec k k'); [done | reflexivity].
    + destruct (String.eqb k0 k'); auto.
Qed.

Lemma js_get_set {V} (o : JsObj V) k k' v :
  js_get (js_set o k v) k' = if String.eqb k k' then Some v else js_get o k'.
Proof.
  destruct (String.eqb_spec k k') as [->|Hne].
  - apply js_get_set_eq.
  - by apply js_get_set_ne.
Qed.

(** ** The state machine of [request] *)

Section Machine.
Context {rt : Runtime} (url : string) (options : RequestOptions.t).

Lemma deliver_app events more s :
  deliver url options (events ++ more) s
  = deliver url options more (deliver url options events s).
Proof. unfold deliver. apply fold_left_app. Qed.

Lemma request_app heap h events more :
  request url options heap h (events ++ more)
  = deliver url options more (request url options heap h events).
Proof. unfold request. apply deliver_app. Qed.

Lemma request_snoc heap h events e :
  request url options heap h (events ++ [e])
  = exec (handle url options e) (request url options heap h events).
Proof. by rewrite request_app. Qed.

(** Induction over the events of a call. *)
Lemma request_ind heap h (P : list Event -> State -> Prop) :
  P [] (exec (start url options heap h) initial) ->
  (forall events e s, P events s -> P (events ++ [e]) (exec (handle url options e) s)) ->
  forall events, P events (request url options heap h events).
Proof.
  intros Hstart Hstep events.
  induction events as [|e events IH] using rev_ind; [exact Hstart|].
  rewrite request_snoc. by apply Hstep.
Qed.

Lemma handle_Inv e s : Inv options s -> Inv options (exec (handle url options e) s).
Proof.
  intros [H1 H2 H3 H4 H5 H6 H7 H8]. unfold timeout_error in *.
  by_cases s e; split; simpl; intros; subst; simpl in *; try finish.
  all: try match goal with
       | H : _ = head ?l |- _ => destruct l; simpl in *; congruence
       end.
  all: match goal with
       | H : ?l <> [] -> _ |- _ => destruct l; simpl in *; finish
       end.
Qed.

(** [set_headers] only calls [setHeader]. *)
Lemma set_headers_calls h entries s :
  exists thrown cs,
    set_headers h entries s = (thrown, with_calls (calls s ++ cs) s)
    /\ Forall (fun c => context_call c = false /\ is_setTimeout c = false) cs.
Proof.
  revert s. induction entries as [|[k v] entries IH]; intros s; simpl.
  - exists None, []. split; [|constructor].
    unfold ret. f_equal. destruct s; simpl. by rewrite app_nil_r.
  - unfold bind, call, modify. simpl.
    destruct (setHeader_throws h k v) as [e|].
    + exists (Some e), [setHeader k v]. split; [done|]. by repeat constructor.
    + destruct (IH (with_calls (calls s ++ [setHeader k v]) s)) as (t & cs & -> & Hcs).
      exists t, (setHeader k v :: cs). split.
      * f_equal. destruct s; simpl. by rewrite <- app_assoc.
      * by repeat constructor.
Qed.

Lemma start_Inv heap h : Inv options (exec (start url options heap h) initial).
Proof.
  unfold start, setupProxy, issue, exec, bind, read, call, modify, ret. simpl.
  destruct (proxy options) as [[|p]|]; simpl;
    try destruct (setProxy_rejects h); simpl;
    try (destruct (net_request_throws h); simpl);
    repeat match goal with
    | |- context [set_headers h ?es ?s] =>
        destruct (set_headers_calls h es s) as (t & cs & -> & _); destruct t; simpl
    end;
    unfold_handlers; simpl; crunch; split; simpl; intros; try finish.
Qed.

Lemma request_Inv heap h events : Inv options (request url options heap h events).
Proof.
  apply (request_ind heap h (fun _ s => Inv options s)).
  - apply start_Inv.
  - intros _ e s. apply handle_Inv.
Qed.

(** A settled promise keeps its outcome. *)
Lemma handle_settled e s o :
  promise s = Some o -> promise (exec (handle url options e) s) = Some o.
Proof. intros H. by_cases s e; congruence. Qed.

Lemma deliver_settled events s o :
  promise s = Some o -> promise (deliver url options events s) = Some o.
Proof.
  revert s. induction events as [|e events IH]; intros s H; [done|].
  simpl. apply IH. by apply handle_settled.
Qed.

Lemma handle_listening e s :
  listening (exec (handle url options e) s) = listening s.
Proof. by_cases s e; reflexivity. Qed.

Lemma handle_redirectCount e s :
  redirectCount (exec (handle url options e) s)
  = redirectCount s + (if listening s && is_redirect e then 1 else 0).
Proof. by_cases s e; lia. Qed.

(** Every handler appends to the calls on the host, and none of them
    chooses a network context or starts a timer. *)
Lemma handle_calls e s :
  exists cs,
    calls (exec (handle url options e) s) = calls s ++ cs
    /\ Forall (fun c => context_call c = false /\ is_setTimeout c = false) cs.
Proof.
  by_cases s e;
    repeat match goal with
    | |- context [(?l ++ [?a]) ++ [?b]] => rewrite <- (app_assoc l [a] [b]); simpl
    end;
    try (eexists; split; [reflexivity|]; by repeat constructor);
    try (exists []; split; [by rewrite app_nil_r | constructor]).
Qed.

Lemma handle_settle_calls e s :
  exists os,
    settle_calls (exec (handle url options e) s) = settle_calls s ++ os.
Proof.
  by_cases s e; try (by eexists); try (exists []; by rewrite app_nil_r).
Qed.
End Machine.

Section Outcomes.
Context {rt : Runtime} (url : string) (options : RequestOptions.t).

(** Each handler passes at most one outcome to the promise, for the
    reason [explains] gives. *)
Lemma handle_outcomes e s :
  exists os,
    settle_calls (exec (handle url options e) s) = settle_calls s ++ os
    /\ (length os <= 1)%nat
    /\ Forall (explains url options e s) os.
Proof.
  destruct s; simpl in *; destruct e; unfold_handlers; simpl; crunch; simpl in *;
    try (exists []; split; [by rewrite app_nil_r | split; [simpl; lia | constructor]]);
    (eexists [_]; split; [reflexivity | split; [simpl; lia |]];
     constructor; [|constructor]; simpl;
     unfold response_of, timeout_error, redirect_error, parse_error;
     try (split_and?; solve [reflexivity | use_tests; lia]);
     try (eexists; split_and?; eauto; fail);
     try (do 2 eexists; simpl; split_and?; eauto;
          repeat match goal with H : _ = _ |- _ => rewrite H end; reflexivity);
     try (do 3 eexists; simpl; split_and?; eauto;
          repeat match goal with H : _ = _ |- _ => rewrite H end; reflexivity)).
Qed.

(** The state the setup leaves: either the request is issued and the
    promise is pending, or the [.catch] handler has rejected it. *)
Lemma start_state heap h :
  let s := exec (start url options heap h) initial in
  redirectCount s = 0 /\ chunks s = [] /\ responses s = [] /\
  ((listening s = true /\ settle_calls s = []) \/
   (listening s = false /\
    exists cause, settle_calls s = [Rejected at_catch (setup_error cause)])).
Proof.
  unfold start, setupProxy, issue, exec, bind, read, call, modify, ret. simpl.
  destruct (proxy options) as [[|p]|]; simpl;
    try destruct (setProxy_rejects h); simpl;
    try (destruct (net_request_throws h); simpl);
    repeat match goal with
    | |- context [set_headers h ?es ?s] =>
        destruct (set_headers_calls h es s) as (t & cs & -> & _); destruct t; simpl
    end;
    unfold_handlers; simpl; crunch; split_and?; try reflexivity;
    try (left; split; reflexivity);
    try (right; split; [reflexivity | eexists; reflexivity]).
Qed.

Lemma redirects_snoc events e :
  redirects (events ++ [e]) = redirects events + (if is_redirect e then 1 else 0).
Proof.
  unfold redirects. rewrite filter_app, length_app.
  destruct e; simpl; rewrite ?filter_cons_True, ?filter_cons_False by done; simpl; lia.
Qed.

Lemma received_snoc events e :
  fold_left receive (events ++ [e]) (O, [])
  = receive (fold_left receive events (O, [])) e.
Proof. by rewrite fold_left_app. Qed.

(** While the request is issued, the counters of the call follow the
    events. *)
Lemma request_counters heap h events :
  let s := request url options heap h events in
  redirectCount s <= redirects events /\
  (listening s = true ->
   redirectCount s = redirects events /\
   length (responses s) = fst (fold_left receive events (O, [])) /\
   chunks s = received events).
Proof.
  apply (request_ind url options heap h (fun events s =>
    redirectCount s <= redirects events /\
    (listening s = true ->
     redirectCount s = redirects events /\
     length (responses s) = fst (fold_left receive events (O, [])) /\
     chunks s = received events))).
  - destruct (start_state heap h) as (-> & -> & -> & _). by cbn.
  - intros evs e s [Hle Hl]. rewrite handle_listening, handle_redirectCount, redirects_snoc.
    split; [destruct (listening s), (is_redirect e); simpl; lia|].
    intros L. destruct (Hl L) as (Hc & Hr & Hch). rewrite L. simpl.
    split; [lia|]. unfold received in *. rewrite received_snoc.
    destruct (fold_left receive evs (O, [])) as [n acc]. simpl in *.
    clear Hle Hl Hc. by_cases s e; subst;
      rewrite ?length_app; simpl;
      try (split; [first [reflexivity | lia] | reflexivity]).
    all: match goal with
         | H : _ !! _ = Some _, T : (_ <? _)%nat = false |- _ =>
             apply lookup_lt_Some in H; apply Nat.ltb_ge in T; lia
         | H : _ !! _ = None, T : (_ <? _)%nat = true |- _ =>
             apply lookup_ge_None in H; apply Nat.ltb_lt in T; lia
         end.
Qed.
End Outcomes.

(** ** Calls on the host *)

Section HostCalls.
Context {rt : Runtime} (url : string) (options : RequestOptions.t).
Context (heap : Heap) (h : Host).

Local Ltac no_rest :=
  exists []; (split_and!; [done | constructor | intros; constructor]).

(** What the setup calls. *)
Lemma start_calls :
  exists rest,
    calls (exec (start url options heap h) initial)
    = match proxy options with
      | Some (ProxyTo p) =>
          session_fromPartition (partition_name h) false
          :: setProxy (PartitionSession (partition_name h)) (proxy_rules p)
          :: match setProxy_rejects h with
             | Some _ => []
             | None =>
                 net_request (method options) url
                   (PartitionSession (partition_name h))
                   (redirect_mode options) true :: rest
             end
      | _ =>
          net_request (method options) url DefaultSession
            (redirect_mode options) true :: rest
      end
    /\ Forall (fun c => context_call c = false) rest
    /\ (timeout options <= 0 -> Forall (fun c => is_setTimeout c = false) rest).
Proof.
  unfold start, setupProxy, issue, exec, bind, read, call, modify, ret.
  unfold partition_name, proxy_rules, redirect_mode. simpl.
  destruct (proxy options) as [[|p]|]; simpl;
    try (destruct (setProxy_rejects h); simpl;
         [no_rest |]);
    (destruct (net_request_throws h); simpl;
     [ unfold_handlers; simpl; crunch;
       no_rest |]);
    match goal with
    | |- context [set_headers h ?es ?s] =>
        destruct (set_headers_calls h es s) as (t & cs & -> & Hcs); destruct t; simpl
    end;
    unfold_handlers; simpl; crunch; simpl;
    repeat match goal with
    | |- context [(?l ++ [?a]) ++ [?b]] => rewrite <- (app_assoc l [a] [b]); simpl
    | |- context [(?a :: ?l) ++ ?m] => change ((a :: l) ++ m) with (a :: (l ++ m))
    | |- context [[] ++ ?m] => change ([] ++ m) with m
    end;
    (eexists; split; [reflexivity|]);
    (split; [| intros Hle]);
    rewrite ?Forall_app, ?Forall_cons, ?Forall_nil;
    split_and?; try done;
    try (eapply Forall_impl; [exact Hcs | simpl; tauto]);
    try (use_tests; lia).
Qed.

(** The handlers neither choose a network context nor start a timer. *)
Lemma request_calls events :
  exists cs,
    calls (request url options heap h events)
    = calls (exec (start url options heap h) initial) ++ cs
    /\ Forall (fun c => context_call c = false /\ is_setTimeout c = false) cs.
Proof.
  apply (request_ind url options heap h (fun _ s =>
    exists cs,
      calls s = calls (exec (start url options heap h) initial) ++ cs
      /\ Forall (fun c => context_call c = false /\ is_setTimeout c = false) cs)).
  - exists []. split; [by rewrite app_nil_r | constructor].
  - intros _ e s (cs & Hcs & Hall).
    destruct (handle_calls url options e s) as (cs' & -> & Hall').
    exists (cs ++ cs'). rewrite Hcs, app_assoc. split; [done|].
    by apply Forall_app.
Qed.
End HostCalls.

(** ** Settlement *)

Section Settlement.
Context {rt : Runtime} (url : string) (options : RequestOptions.t).
Context (heap : Heap) (h : Host).

(** Every outcome a call passes to its promise has its reason: the
    [.catch] handler ran during the setup, or an event explains it. *)
Lemma request_outcomes events o :
  o ∈ settle_calls (request url options heap h events) ->
  (exists cause, o = Rejected at_catch (setup_error cause)) \/
  (exists pre e post,
     events = pre ++ e :: post /\
     explains url options e (request url options heap h pre) o).
Proof.
  revert o. induction events as [|e events IH] using rev_ind; intros o Ho.
  - destruct (start_state url options heap h) as (_ & _ & _ & [[_ Hs]|[_ [c Hs]]]);
      unfold request in Ho; simpl in Ho; rewrite Hs in Ho.
    + by apply elem_of_nil in Ho.
    + apply list_elem_of_singleton in Ho. left. by exists c.
  - rewrite request_snoc in Ho.
    destruct (handle_outcomes url options e (request url options heap h events))
      as (os & Hos & _ & Hex).
    rewrite Hos in Ho. apply elem_of_app in Ho as [Ho|Ho].
    + destruct (IH o Ho) as [?|(pre & e' & post & -> & Hx)]; [by left|].
      right. exists pre, e', (post ++ [e]). split; [|done].
      by rewrite <- app_assoc.
    + right. exists events, e, []. split; [done|].
      rewrite Forall_forall in Hex. by apply Hex.
Qed.

Lemma request_promise_in events o :
  promise (request url options heap h events) = Some o ->
  o ∈ settle_calls (request url options heap h events).
Proof.
  intros Hp. rewrite (inv_first _ _ (request_Inv url options heap h events)) in Hp.
  destruct (settle_calls (request url options heap h events)); simplify_eq/=.
  apply elem_of_cons. by left.
Qed.
End Settlement.

(** C3: a rejection for too many redirects carries the configured
    maximum and needs more than [maxRedirects] redirect events; and the
    redirect that exceeds the maximum while the call is pending aborts
    the request, cancels the timer and rejects the call. *)
Theorem redirect_limit {rt : Runtime} url options heap h events :
  (forall reason,
     Rejected at_redirect reason ∈ settle_calls (request url options heap h events) ->
     reason = redirect_error options /\ maxRedirects options < redirects events)
  /\ (promise (request url options heap h events) = None ->
      redirects events = maxRedirects options ->
      promise (request url options heap h (events ++ [req_redirect]))
      = Some (Rejected at_redirect (redirect_error options))
      /\ calls (request url options heap h (events ++ [req_redirect]))
         = calls (request url options heap h events)
           ++ req_abort :: (if 0 <? timeout options then [clearTimeout] else [])).
Proof.
  split.
  - intros reason Hin.
    apply request_outcomes in Hin as [[c Hc]|(pre & e & post & -> & Hx)]; [done|].
    simpl in Hx. destruct Hx as (-> & HL & Hlt & ->). split; [done|].
    destruct (request_counters url options heap h pre) as [_ Hc].
    destruct (Hc HL) as (Hrc & _). rewrite Hrc in Hlt.
    unfold redirects in *. rewrite filter_app, length_app.
    rewrite filter_cons_True by done. simpl. lia.
  - intros Hp Hr. rewrite request_snoc.
    pose proof (request_Inv url options heap h events) as [_ Hpend _ _ _ _ _ _].
    destruct (Hpend Hp) as [HL Ht].
    destruct (request_counters url options heap h events) as [_ Hc].
    destruct (Hc HL) as (Hrc & _). rewrite Hr in Hrc.
    destruct (request url options heap h events); simpl in *. subst.
    unfold_handlers; simpl.
    replace (maxRedirects options <? maxRedirects options + 1) with true
      by (symmetry; apply Z.ltb_lt; lia).
    simpl. destruct (0 <? timeout options); crunch; simpl;
      rewrite <- ?app_assoc; done.
Qed.

(** C5: without a proxy (left out or [false]) the first call on the host
    issues the request on the default session and no later call chooses
    a network context; with a proxy descriptor the call creates the
    session of a partition named after the clock and a random number,
    with its cache off, sets its proxy rules to protocol://host:port,
    and, unless that fails, issues the request on that session. *)
Theorem network_context {rt : Runtime} url options heap h events :
  (proxy options = None \/ proxy options = Some ProxyFalse ->
   exists rest,
     calls (request url options heap h events)
     = net_request (method options) url DefaultSession
         (redirect_mode options) true :: rest
     /\ Forall (fun c => context_call c = false) rest)
  /\ (forall p,
        proxy options = Some (ProxyTo p) ->
        exists rest,
          calls (request url options heap h events)
          = session_fromPartition (partition_name h) false
            :: setProxy (PartitionSession (partition_name h)) (proxy_rules p)
            :: match setProxy_rejects h with
               | Some _ => rest
               | None =>
                   net_request (method options) url
                     (PartitionSession (partition_name h))
                     (redirect_mode options) true :: rest
               end
          /\ Forall (fun c => context_call c = false) rest).
Proof.
  destruct (request_calls url options heap h events) as (cs & Hcs & Hall).
  destruct (start_calls url options heap h) as (rest & Hs & Hrest & _).
  assert (Hcs' : Forall (fun c => context_call c = false) cs)
    by (eapply Forall_impl; [exact Hall | simpl; tauto]).
  rewrite Hcs, Hs. split.
  - intros [-> | ->]; exists (rest ++ cs); (split; [done | by apply Forall_app]).
  - intros p ->. destruct (setProxy_rejects h).
    + exists cs. by split.
    + exists (rest ++ cs). split; [done | by apply Forall_app].
Qed.

(** ** Response headers *)

Lemma concat_length_sum {A} (l : list (list A)) :
  length (concat l) = sum_list (length <$> l).
Proof. induction l as [|x l IH]; simpl; [done|]. by rewrite length_app, IH. Qed.

Lemma assign_header_lookup acc k v key :
  assign_header acc k v !! key
  = if String.eqb k "__proto__" then acc !! key
    else if String.eqb k key then Some v else acc !! key.
Proof.
  unfold assign_header. destruct (String.eqb_spec k "__proto__"); [done|].
  destruct (String.eqb_spec k key) as [->|Hne].
  - by rewrite lookup_insert_eq.
  - by rewrite lookup_insert_ne.
Qed.

(** The loop never stores under __proto__, and under any other key it
    leaves the value of the last header of that name. *)
Lemma extract_headers_lookup pairs acc key :
  extract_headers (alternate pairs) acc !! key
  = if String.eqb key "__proto__" then acc !! key
    else match last_occurrence pairs key with
         | Some v => Some (Some v)
         | None => acc !! key
         end.
Proof.
  revert acc. induction pairs as [|[name value] pairs IH]; intros acc.
  - simpl. by destruct (String.eqb key "__proto__").
  - change (alternate ((name, value) :: pairs))
      with (name :: value :: alternate pairs).
    simpl. rewrite IH, assign_header_lookup.
    destruct (String.eqb_spec key "__proto__") as [Hkey|Hkey].
    + rewrite Hkey.
      by destruct (String.eqb_spec (toLowerCase name) "__proto__").
    + destruct (last_occurrence pairs key); [done|].
      destruct (String.eqb_spec (toLowerCase name) "__proto__") as [Hp|Hp];
        destruct (String.eqb_spec (toLowerCase name) key); congruence.
Qed.

Lemma last_occurrence_Some pairs key :
  is_Some (last_occurrence pairs key)
  <-> exists name value, (name, value) ∈ pairs /\ key = toLowerCase name.
Proof.
  induction pairs as [|[name value] pairs IH]; simpl.
  - split; [by intros [? ?] | intros (? & ? & Hin & _); by apply elem_of_nil in Hin].
  - destruct (last_occurrence pairs key) as [v|].
    + split; [|by eexists]. intros _.
      destruct (proj1 IH) as (n & v' & Hin & ->); [by eexists|].
      exists n, v'. split; [by apply list_elem_of_further | done].
    + destruct (String.eqb_spec (toLowerCase name) key) as [<-|Hne].
      * split; [|by eexists]. intros _. exists name, value.
        split; [apply list_elem_of_here | done].
      * split; [by intros [? ?]|]. intros (n & v & Hin & ->).
        apply elem_of_cons in Hin as [Heq|Hin]; [by simplify_eq|].
        destruct (proj2 IH) as [? ?]; [by eexists _, _ | done].
Qed.

Section Responses.
Context {rt : Runtime} (url : string) (options : RequestOptions.t).
Context (heap : Heap) (h : Host).

Lemma handle_unissued e s :
  listening s = false -> responses s = [] -> timeoutId s = NoTimer ->
  exec (handle url options e) s = s.
Proof. intros H1 H2 H3. by_cases s e; simplify_eq/=; done. Qed.

Lemma deliver_unissued events s :
  listening s = false -> responses s = [] -> timeoutId s = NoTimer ->
  deliver url options events s = s.
Proof.
  intros H1 H2 H3. induction events as [|e events IH]; [done|].
  simpl. by rewrite handle_unissued.
Qed.

(** The fields of the response a [res] object resolves the call with. *)
Lemma response_of_fields res buffer r :
  response_of url options res buffer = inr r ->
  Response.url r = url /\
  Response.status r = statusCode res /\
  Response.statusText r = statusMessage res /\
  Response.headers r = responseHeaders res /\
  match responseType options with
  | text => Response.data r = DataText (utf8_decode buffer)
  | arraybuffer => Response.data r = DataBuffer buffer
  | json =>
      exists v, JSON_parse (utf8_decode buffer) = inr v /\
                Response.data r = DataJson v
  end.
Proof.
  unfold response_of. destruct (responseType options);
    try destruct (JSON_parse (utf8_decode buffer)) eqn:E;
    intros; simplify_eq/=; split_and?; eauto.
Qed.

(** Every [res] object of a call comes from a response event. *)
Lemma responses_from_events events res :
  res ∈ responses (request url options heap h events) ->
  exists c m raw,
    req_response c m raw ∈ events /\
    res = {| statusCode := c; statusMessage := m;
             responseHeaders := extract_headers (default [] raw) ∅ |}.
Proof.
  revert res. apply (request_ind url options heap h (fun events s =>
    forall res, res ∈ responses s ->
    exists c m raw,
      req_response c m raw ∈ events /\
      res = {| statusCode := c; statusMessage := m;
               responseHeaders := extract_headers (default [] raw) ∅ |})).
  - destruct (start_state url options heap h) as (_ & _ & -> & _).
    intros res Hin. by apply elem_of_nil in Hin.
  - intros evs e s IH res Hin.
    assert (Hold : res ∈ responses s ->
      exists c m raw, req_response c m raw ∈ evs ++ [e] /\
        res = {| statusCode := c; statusMessage := m;
                 responseHeaders := extract_headers (default [] raw) ∅ |}).
    { intros Hr. destruct (IH res Hr) as (c & m & raw & Hev & ->).
      exists c, m, raw. split; [apply elem_of_app; by left | done]. }
    revert Hin. clear IH. by_cases s e; intros Hin; auto.
    apply elem_of_app in Hin as [Hin|Hin]; [auto|].
    apply list_elem_of_singleton in Hin as ->.
    eexists _, _, _. split; [apply elem_of_app; right; by apply list_elem_of_singleton | done].
Qed.

(** The outcome of the promise of a call that resolved. *)
Lemma request_resolved events r :
  promise (request url options heap h events) = Some (Resolved r) ->
  exists pre i post res,
    events = pre ++ res_end i :: post /\
    responses (request url options heap h pre) !! i = Some res /\
    response_of url options res (concat (received pre)) = inr r.
Proof.
  intros Hp. apply request_promise_in, request_outcomes in Hp
    as [[c Hc]|(pre & e & post & -> & Hx)]; [done|].
  destruct Hx as (i & res & -> & Hres & Hr).
  exists pre, i, post, res. split_and!; [done..|].
  destruct (request_counters url options heap h pre) as [_ Hc].
  pose proof (request_Inv url options heap h pre) as [_ _ _ _ _ HL _ _].
  destruct Hc as (_ & _ & <-); [|done].
  apply HL. intros Hnil. by rewrite Hnil in Hres.
Qed.

(** The [end] event of a [res] object settles a pending call. *)
Lemma request_end events i res :
  promise (request url options heap h events) = None ->
  responses (request url options heap h events) !! i = Some res ->
  promise (request url options heap h (events ++ [res_end i]))
  = Some match response_of url options res (concat (received events)) with
         | inr r => Resolved r
         | inl cause => Rejected at_parse (parse_error cause)
         end.
Proof.
  intros Hp Hres. rewrite request_snoc.
  pose proof (request_Inv url options heap h events) as [_ Hpend _ _ _ _ _ _].
  destruct (Hpend Hp) as [HL _].
  destruct (request_counters url options heap h events) as [_ Hc].
  destruct (Hc HL) as (_ & _ & <-).
  destruct (request url options heap h events); simpl in *. subst.
  unfold response_of. unfold_handlers; simpl. rewrite Hres.
  crunch; done.
Qed.
End Responses.

(** C6: the headers of the response a call resolves with are extracted
    from the raw headers of a response event. When these alternate names
    and values, the object holds no property under __proto__, also when
    a header of that name was received; under every other key it holds
    the value of the last header whose lowercased name is that key, and
    its keys are the lowercased names other than __proto__. *)
Theorem response_headers {rt : Runtime} url options heap h events r :
  promise (request url options heap h events) = Some (Resolved r) ->
  exists c m raw,
    req_response c m raw ∈ events /\
    Response.headers r = extract_headers (default [] raw) ∅ /\
    forall pairs,
      default [] raw = alternate pairs ->
      Response.headers r !! "__proto__" = None /\
      (forall key,
         key <> "__proto__" ->
         Response.headers r !! key = Some <$> last_occurrence pairs key) /\
      (forall key,
         is_Some (Response.headers r !! key)
         <-> key <> "__proto__" /\
             exists name value, (name, value) ∈ pairs /\ key = toLowerCase name).
Proof.
  intros Hp. apply request_resolved in Hp as (pre & i & post & res & -> & Hres & Hr).
  apply response_of_fields in Hr as (_ & _ & _ & Hh & _).
  apply list_elem_of_lookup_2, responses_from_events in Hres as (c & m & raw & Hev & ->).
  exists c, m, raw. split_and!.
  - apply elem_of_app. by left.
  - done.
  - intros pairs Hraw. rewrite Hh. simpl. rewrite Hraw.
    assert (Hget : forall key, key <> "__proto__" ->
      extract_headers (alternate pairs) ∅ !! key = Some <$> last_occurrence pairs key).
    { intros key Hkey. rewrite extract_headers_lookup.
      destruct (String.eqb_spec key "__proto__"); [done|].
      by destruct (last_occurrence pairs key). }
    assert (Hproto : extract_headers (alternate pairs) ∅ !! "__proto__" = None).
    { by rewrite extract_headers_lookup. }
    split_and!; [done..|].
    intros key. destruct (decide (key = "__proto__")) as [->|Hkey].
    + rewrite Hproto. split; [by intros [? ?] | by intros [? _]].
    + rewrite Hget, <- last_occurrence_Some by done.
      rewrite fmap_is_Some. tauto.
Qed.

(** C7: with [responseType] json, the [end] event of a response on a
    pending call parses the UTF-8 text of the bytes received: the call
    resolves with the parsed value, or, when the parser throws, rejects
    with the parse error that wraps what it threw. *)
Theorem json_response {rt : Runtime} url options heap h events i res :
  responseType options = json ->
  promise (request url options heap h events) = None ->
  responses (request url options heap h events) !! i = Some res ->
  promise (request url options heap h (events ++ [res_end i]))
  = Some match JSON_parse (utf8_decode (concat (received events))) with
         | inr v =>
             Resolved {| Response.data := DataJson v;
                         Response.status := statusCode res;
                         Response.statusText := statusMessage res;
                         Response.headers := responseHeaders res;
                         Response.url := url |}
         | inl cause => Rejected at_parse (parse_error cause)
         end.
Proof.
  intros Hj Hp Hres. rewrite (request_end url options heap h events i res Hp Hres).
  unfold response_of. rewrite Hj.
  by destruct (JSON_parse (utf8_decode (concat (received events)))).
Qed.

(** C8: a call that resolved did so at the [end] event of a response;
    its [url] is the url [request] was called with, its status and
    headers are those of that response, and its data is the
    concatenation of the chunks received before, decoded as UTF-8 for
    text and untouched for arraybuffer. Conversely that event resolves a
    pending call whose [responseType] is text or arraybuffer. *)
Theorem resolved_response {rt : Runtime} url options heap h events :
  (forall r,
     promise (request url options heap h events) = Some (Resolved r) ->
     exists pre i post res,
       events = pre ++ res_end i :: post /\
       responses (request url options heap h pre) !! i = Some res /\
       Response.url r = url /\
       Response.status r = statusCode res /\
       Response.statusText r = statusMessage res /\
       Response.headers r = responseHeaders res /\
       match responseType options with
       | text => Response.data r = DataText (utf8_decode (concat (received pre)))
       | arraybuffer =>
           Response.data r = DataBuffer (concat (received pre)) /\
           length (concat (received pre)) = sum_list (length <$> received pre)
       | json =>
           exists v, JSON_parse (utf8_decode (concat (received pre))) = inr v /\
                     Response.data r = DataJson v
       end)
  /\ (forall i res,
        responseType options <> json ->
        promise (request url options heap h events) = None ->
        responses (request url options heap h events) !! i = Some res ->
        promise (request url options heap h (events ++ [res_end i]))
        = Some (Resolved
            {| Response.data :=
                 match responseType options with
                 | arraybuffer => DataBuffer (concat (received events))
                 | _ => DataText (utf8_decode (concat (received events)))
                 end;
               Response.status := statusCode res;
               Response.statusText := statusMessage res;
               Response.headers := responseHeaders res;
               Response.url := url |})).
Proof.
  split.
  - intros r Hp.
    apply request_resolved in Hp as (pre & i & post & res & -> & Hres & Hr).
    apply response_of_fields in Hr as (Hu & Hs & Ht & Hh & Hd).
    exists pre, i, post, res. split_and!; try done.
    destruct (responseType options); try done.
    split; [done | apply concat_length_sum].
  - intros i res Hj Hp Hres.
    rewrite (request_end url options heap h events i res Hp Hres).
    unfold response_of. by destruct (responseType options).
Qed.

(** ** Failures *)

Section Failures.
Context {rt : Runtime} (url : string) (options : RequestOptions.t).
Context (heap : Heap) (h : Host).

(** A transport or stream error rejects the call with the error of the
    event itself. *)
Lemma transport_error_unwrapped events site reason :
  site = at_req_error \/ site = at_res_error ->
  promise (request url options heap h events) = Some (Rejected site reason) ->
  req_error reason ∈ events \/ exists i, res_error i reason ∈ events.
Proof.
  intros Hsite Hp. apply request_promise_in, request_outcomes in Hp
    as [[c Hc]|(pre & e & post & -> & Hx)].
  - destruct Hsite; by simplify_eq.
  - destruct Hsite as [-> | ->]; simpl in Hx.
    + destruct Hx as [-> _]. left. apply elem_of_app. right. by left.
    + destruct Hx as (i & -> & _). right. exists i. apply elem_of_app. right. by left.
Qed.

(** A failure of [setProxy] rejects the call with the wrapped error, and
    the request is never issued. *)
Lemma proxy_failure_wrapped events p cause :
  proxy options = Some (ProxyTo p) ->
  setProxy_rejects h = Some cause ->
  promise (request url options heap h events)
  = Some (Rejected at_catch (setup_error cause)).
Proof.
  intros Hp Hr. unfold request. apply deliver_settled.
  unfold start, setupProxy, exec, bind, read, call, modify, ret.
  rewrite Hp. simpl. rewrite Hr. by unfold_handlers.
Qed.
End Failures.

(** C9 (the code departs from it): a [setHeader] that throws is not a
    failure of the proxy setup, yet the call rejects with the wrapped
    error of [.catch]; here no proxy is configured and the host was
    never asked to set one up. *)
Theorem thrown_header_reported_as_proxy_failure {rt : Runtime}
    url options heap h events key value others cause :
  proxy options = None \/ proxy options = Some ProxyFalse ->
  net_request_throws h = None ->
  headers options heap = (key, value) :: others ->
  setHeader_throws h key value = Some cause ->
  promise (request url options heap h events)
  = Some (Rejected at_catch (setup_error cause))
  /\ calls (request url options heap h events)
     = [net_request (method options) url DefaultSession (redirect_mode options) true;
        setHeader key value].
Proof.
  intros Hp Hn Hh Hc.
  assert (Hs : exec (start url options heap h) initial
    = with_settle_calls [Rejected at_catch (setup_error cause)]
        (with_promise (Some (Rejected at_catch (setup_error cause)))
           (with_calls
              [net_request (method options) url DefaultSession
                 (redirect_mode options) true; setHeader key value] initial))).
  { unfold start, setupProxy, issue, exec, bind, read, call, modify, ret.
    destruct Hp as [-> | ->]; simpl; rewrite Hn, Hh; simpl; rewrite Hc;
      by unfold_handlers. }
  unfold request. rewrite Hs, deliver_unissued by done. by split.
Qed.

(** ** The wrappers *)

Lemma js_set_absent {V} (o : JsObj V) k v :
  js_get o k = None -> js_set o k v = o ++ [(k, v)].
Proof.
  induction o as [|[k' v'] o IH]; simpl; [done|].
  destruct (String.eqb k' k); [done|]. intros H. by rewrite IH.
Qed.

Section WrapperFacts.
Context {rt : Runtime}.

Lemma with_body_spec m url data options heap h events body :
  match data with VStr s => inr (Some s) | _ => JSON_stringify data end = inr body ->
  let supplied := options ≫= RequestOptions.headers in
  let l := default (fresh (dom heap)) supplied in
  let before := default [] (supplied ≫= fun l => heap !! l) in
  let after :=
    if is_string data || truthy (js_get before "content-type") then before
    else js_set before "content-type" "application/json" in
  exists o heap',
    with_body m url data options heap h events
    = (inr (request url o heap' h events), heap')
    /\ RequestOptions.method o = Some m
    /\ RequestOptions.body o = BodyString <$> body
    /\ RequestOptions.headers o = Some l
    /\ headers o heap' = after
    /\ (forall key, key <> "content-type" -> js_get after key = js_get before key)
    /\ (forall l', l' <> l -> heap' !! l' = heap !! l').
Proof.
  intros Hser. simpl. unfold with_body, prepare. rewrite Hser.
  destruct (options ≫= RequestOptions.headers) as [l|] eqn:Hsup; simpl.
  - destruct (negb (is_string data) && negb (truthy (js_get (default [] (heap !! l)) "content-type")))
      eqn:Hcond.
    + apply andb_true_iff in Hcond as [Hs Ht].
      apply negb_true_iff in Hs, Ht. rewrite Hs, Ht. simpl.
      eexists _, _. split_and!; try reflexivity.
      * unfold headers. simpl. by rewrite lookup_insert_eq.
      * intros key Hk. apply js_get_set_ne. congruence.
      * intros l' Hl. by rewrite lookup_insert_ne.
    + apply andb_false_iff in Hcond.
      replace (is_string data || truthy (js_get (default [] (heap !! l)) "content-type"))
        with true
        by (destruct Hcond as [Hc|Hc]; apply negb_false_iff in Hc; rewrite Hc;
            by rewrite ?orb_true_r).
      eexists _, _. split_and!; try reflexivity.
  - rewrite lookup_insert_eq. simpl.
    destruct (is_string data); simpl.
    + eexists _, _. split_and!; try reflexivity.
      * unfold headers. simpl. by rewrite lookup_insert_eq.
      * intros l' Hl. by rewrite lookup_insert_ne.
    + eexists _, _. split_and!; try reflexivity.
      * unfold headers. simpl. by rewrite lookup_insert_eq.
      * intros key Hk.
        change (js_get (js_set [] "content-type" "application/json") key
                = js_get ([] : JsObj string) key).
        apply js_get_set_ne. congruence.
      * intros l' Hl. by rewrite !lookup_insert_ne.
Qed.
End WrapperFacts.

(** C1, as the code has it: [post], [put] and [patch] pass a string
    verbatim and anything else as [JSON.stringify] returns it; for data
    that is not a string they set content-type to application/json
    exactly when the headers hold no non-empty value under the exact key
    content-type; every other key of the headers, whatever its case,
    keeps its value, and [request] enumerates the object so updated. *)
Theorem wrapper_body_and_content_type {rt : Runtime}
    wrapper m url data options heap h events body :
  (wrapper, m) ∈ [(post, POST); (put, PUT); (patch, PATCH)] ->
  match data with VStr s => inr (Some s) | _ => JSON_stringify data end = inr body ->
  let supplied := options ≫= RequestOptions.headers in
  let l := default (fresh (dom heap)) supplied in
  let before := default [] (supplied ≫= fun l => heap !! l) in
  let after :=
    if is_string data || truthy (js_get before "content-type") then before
    else js_set before "content-type" "application/json" in
  exists o heap',
    wrapper url data options heap h events
    = (inr (request url o heap' h events), heap')
    /\ RequestOptions.method o = Some m
    /\ RequestOptions.body o = BodyString <$> body
    /\ RequestOptions.headers o = Some l
    /\ headers o heap' = after
    /\ (forall key, key <> "content-type" -> js_get after key = js_get before key)
    /\ (forall l', l' <> l -> heap' !! l' = heap !! l').
Proof.
  intros Hw Hser.
  repeat (apply elem_of_cons in Hw as [Hw|Hw];
          [injection Hw as -> ->; by apply with_body_spec|]).
  by apply elem_of_nil in Hw.
Qed.

(** C10, as the code has it: when the data is not a string, its
    serialization does not throw and the caller's headers have no
    content-type key, the wrapper adds the entry to the caller's own
    object, the one its options refer to. *)
Theorem wrapper_mutates_caller_headers {rt : Runtime}
    wrapper m url data options heap h events l before serialized :
  (wrapper, m) ∈ [(post, POST); (put, PUT); (patch, PATCH)] ->
  is_string data = false ->
  options ≫= RequestOptions.headers = Some l ->
  heap !! l = Some before ->
  js_get before "content-type" = None ->
  JSON_stringify data = inr serialized ->
  snd (wrapper url data options heap h events) !! l
  = Some (before ++ [("content-type", "application/json")]).
Proof.
  intros Hw Hs Hl Hb Hg Hser.
  assert (Hprep : forall m,
    snd (with_body m url data options heap h events) !! l
    = Some (before ++ [("content-type", "application/json")])).
  { intros m'. unfold with_body, prepare.
    replace (match data with VStr s => inr (Some s) | _ => JSON_stringify data end)
      with (inr serialized : JsError + option string)
      by (destruct data; simpl in *; congruence).
    rewrite Hl, Hs, Hb. simpl. rewrite Hg. simpl.
    by rewrite lookup_insert_eq, js_set_absent. }
  repeat (apply elem_of_cons in Hw as [Hw|Hw];
          [injection Hw as -> ->; apply Hprep|]).
  by apply elem_of_nil in Hw.
Qed.

(** ** The statements at sample inputs *)

(** With [maxRedirects] 3, the fourth redirect rejects the call. *)
Lemma redirect_limit_witness :
  (redirect_error sample_options = redirect_error sample_options
   /\ maxRedirects sample_options < redirects four_redirects)
  /\ (promise (request (rt := reference_runtime) sample_url sample_options ∅
                 quiet_host ([req_redirect; req_redirect; req_redirect]
                             ++ [req_redirect]))
      = Some (Rejected at_redirect (redirect_error sample_options))
      /\ calls (request (rt := reference_runtime) sample_url sample_options ∅
                  quiet_host ([req_redirect; req_redirect; req_redirect]
                              ++ [req_redirect]))
         = calls (request (rt := reference_runtime) sample_url sample_options ∅
                    quiet_host [req_redirect; req_redirect; req_redirect])
           ++ req_abort :: (if 0 <? timeout sample_options
                            then [clearTimeout] else [])).
Proof.
  split.
  - apply (proj1 (redirect_limit (rt := reference_runtime) sample_url
                    sample_options ∅ quiet_host four_redirects)).
    vm_compute. apply list_elem_of_here.
  - apply (proj2 (redirect_limit (rt := reference_runtime) sample_url
                    sample_options ∅ quiet_host
                    [req_redirect; req_redirect; req_redirect]));
      vm_compute; reflexivity.
Defined.

(** [proxy: false] uses the default session; a proxy descriptor gets a
    session of its own. *)
Lemma network_context_witness :
  (exists rest,
     calls (request (rt := reference_runtime) sample_url plain_options ∅
              quiet_host [])
     = net_request (method plain_options) sample_url DefaultSession
         (redirect_mode plain_options) true :: rest
     /\ Forall (fun c => context_call c = false) rest)
  /\ (exists rest,
        calls (request (rt := reference_runtime) sample_url proxied_options ∅
                 quiet_host [])
        = session_fromPartition (partition_name quiet_host) false
          :: setProxy (PartitionSession (partition_name quiet_host))
               (proxy_rules sample_proxy)
          :: match setProxy_rejects quiet_host with
             | Some _ => rest
             | None =>
                 net_request (method proxied_options) sample_url
                   (PartitionSession (partition_name quiet_host))
                   (redirect_mode proxied_options) true :: rest
             end
        /\ Forall (fun c => context_call c = false) rest).
Proof.
  split.
  - apply (proj1 (network_context (rt := reference_runtime) sample_url
                    plain_options ∅ quiet_host [])).
    right. reflexivity.
  - apply (proj2 (network_context (rt := reference_runtime) sample_url
                    proxied_options ∅ quiet_host []) sample_proxy).
    reflexivity.
Defined.

(** A header named __proto__ is lost: the response resolved holds the
    other header only. *)
Lemma response_headers_witness :
  exists c m raw,
    req_response c m raw ∈ proto_response /\
    proto_headers = extract_headers (default [] raw) ∅ /\
    forall pairs,
      default [] raw = alternate pairs ->
      proto_headers !! "__proto__" = None /\
      (forall key,
         key <> "__proto__" ->
         proto_headers !! key = Some <$> last_occurrence pairs key) /\
      (forall key,
         is_Some (proto_headers !! key)
         <-> key <> "__proto__" /\
             exists name value, (name, value) ∈ pairs /\ key = toLowerCase name).
Proof.
  apply (response_headers (rt := reference_runtime) sample_url plain_options ∅
           quiet_host proto_response
           {| Response.data := DataText "";
              Response.status := 200;
              Response.statusText := "OK";
              Response.headers := proto_headers;
              Response.url := sample_url |}).
  vm_compute. reflexivity.
Defined.

(** The same response read against the header sequence received: the
    last header named __proto__ has a value, the object holds none. *)
Example proto_header_is_dropped :
  promise (request (rt := reference_runtime) sample_url plain_options ∅
             quiet_host proto_response)
  = Some (Resolved {| Response.data := DataText "";
                      Response.status := 200;
                      Response.statusText := "OK";
                      Response.headers := proto_headers;
                      Response.url := sample_url |})
  /\ last_occurrence [("__proto__", "v"); ("X-A", "1")] "__proto__" = Some "v"
  /\ proto_headers !! "__proto__" = None.
Proof. vm_compute. by split_and!. Qed.

(** The body [{"a":1}] parses. *)
Lemma json_response_witness :
  promise (request (rt := reference_runtime) sample_url sample_options ∅
             quiet_host (sample_response ++ [res_end O]))
  = Some match JSON_parse (Runtime := reference_runtime)
                 (utf8_decode (Runtime := reference_runtime)
                    (concat (received sample_response))) with
         | inr v =>
             Resolved {| Response.data := DataJson v;
                         Response.status := 200;
                         Response.statusText := "OK";
                         Response.headers :=
                           sample_headers;
                         Response.url := sample_url |}
         | inl cause => Rejected at_parse (parse_error cause)
         end.
Proof.
  apply (json_response (rt := reference_runtime) sample_url sample_options ∅
           quiet_host sample_response O
           {| statusCode := 200; statusMessage := "OK";
              responseHeaders :=
                sample_headers |});
    vm_compute; reflexivity.
Defined.

(** With [arraybuffer] the same response resolves with its bytes. *)
Lemma resolved_response_witness :
  (exists pre i post res,
     sample_response ++ [res_end O] = pre ++ res_end i :: post /\
     responses (request (rt := reference_runtime) sample_url buffer_options ∅
                  quiet_host pre) !! i = Some res /\
     sample_url = sample_url /\
     200 = statusCode res /\
     "OK" = statusMessage res /\
     sample_headers
     = responseHeaders res /\
     match responseType buffer_options with
     | text =>
         DataBuffer (concat json_chunks)
         = DataText (utf8_decode (Runtime := reference_runtime)
                       (concat (received pre)))
     | arraybuffer =>
         DataBuffer (concat json_chunks) = DataBuffer (concat (received pre)) /\
         length (concat (received pre)) = sum_list (length <$> received pre)
     | json =>
         exists v,
           JSON_parse (Runtime := reference_runtime)
             (utf8_decode (Runtime := reference_runtime)
                (concat (received pre))) = inr v /\
           DataBuffer (concat json_chunks) = DataJson v
     end)
  /\ promise (request (rt := reference_runtime) sample_url buffer_options ∅
                quiet_host (sample_response ++ [res_end O]))
     = Some (Resolved
         {| Response.data :=
              match responseType buffer_options with
              | arraybuffer => DataBuffer (concat (received sample_response))
              | _ => DataText (utf8_decode (Runtime := reference_runtime)
                                 (concat (received sample_response)))
              end;
            Response.status := 200;
            Response.statusText := "OK";
            Response.headers :=
              sample_headers;
            Response.url := sample_url |}).
Proof.
  split.
  - apply (proj1 (resolved_response (rt := reference_runtime) sample_url
                    buffer_options ∅ quiet_host (sample_response ++ [res_end O]))
             {| Response.data := DataBuffer (concat json_chunks);
                Response.status := 200;
                Response.statusText := "OK";
                Response.headers :=
                  sample_headers;
                Response.url := sample_url |}).
    vm_compute. reflexivity.
  - apply (proj2 (resolved_response (rt := reference_runtime) sample_url
                    buffer_options ∅ quiet_host sample_response) O
             {| statusCode := 200; statusMessage := "OK";
                responseHeaders :=
                  sample_headers |});
      [discriminate | vm_compute; reflexivity | vm_compute; reflexivity].
Defined.

(** No proxy is configured and a header value holds a line feed: the
    call is rejected as a failure to set up the proxy. *)
Lemma thrown_header_reported_as_proxy_failure_witness :
  promise (request (rt := reference_runtime) sample_url headers_options
             {[ O := broken_headers ]} strict_host [])
  = Some (Rejected at_catch
            (setup_error (new_Error "Invalid value for header 'x-note'")))
  /\ calls (request (rt := reference_runtime) sample_url headers_options
              {[ O := broken_headers ]} strict_host [])
     = [net_request (method headers_options) sample_url DefaultSession
          (redirect_mode headers_options) true;
        setHeader "x-note" ("a" +:+ String line_feed "b")].
Proof.
  apply (thrown_header_reported_as_proxy_failure (rt := reference_runtime)
           sample_url headers_options {[ O := broken_headers ]} strict_host []
           "x-note" ("a" +:+ String line_feed "b") []
           (new_Error "Invalid value for header 'x-note'"));
    [by left | reflexivity | vm_compute; reflexivity | vm_compute; reflexivity].
Defined.

(** [post(url, { x: 1 })] without options: the body is the serialized
    data and a fresh headers object gets the content type. *)
Lemma wrapper_body_and_content_type_witness :
  exists o heap',
    post (rt := reference_runtime) sample_url sample_data None ∅ quiet_host []
    = (inr (request (rt := reference_runtime) sample_url o heap' quiet_host []),
       heap')
    /\ RequestOptions.method o = Some POST
    /\ RequestOptions.body o
       = BodyString <$> Some ("{" +:+ String Codec.dquote "x"
                               +:+ String Codec.dquote ":1}")
    /\ RequestOptions.headers o = Some (fresh (dom (∅ : Heap)))
    /\ headers o heap' = [("content-type", "application/json")]
    /\ (forall key,
          key <> "content-type" ->
          js_get [("content-type", "application/json")] key
          = js_get ([] : JsObj string) key)
    /\ (forall l',
          l' <> fresh (dom (∅ : Heap)) -> heap' !! l' = (∅ : Heap) !! l').
Proof.
  apply (wrapper_body_and_content_type (rt := reference_runtime) post POST
           sample_url sample_data None ∅ quiet_host []
           (Some ("{" +:+ String Codec.dquote "x" +:+ String Codec.dquote ":1}"))).
  - apply list_elem_of_here.
  - vm_compute. reflexivity.
Defined.

(** C1 as stated fails: the caller supplied a content type under the
    key Content-Type, and [post] still added its own under the key
    content-type; the host is handed both. *)
Lemma content_type_check_is_case_sensitive :
  supplies [("Content-Type", "text/plain")] "content-type" = true
  /\ exists s,
       post (rt := reference_runtime) sample_url sample_data
         (Some headers_options) {[ O := [("Content-Type", "text/plain")] ]}
         quiet_host []
       = (inr s,
          {[ O := [("Content-Type", "text/plain");
                   ("content-type", "application/json")] ]})
       /\ calls s
          = [net_request POST sample_url DefaultSession follow true;
             setHeader "Content-Type" "text/plain";
             setHeader "content-type" "application/json";
             setTimeout 30000;
             req_write
               (BodyString ("{" +:+ String Codec.dquote "x"
                            +:+ String Codec.dquote ":1}"))
               (Some "utf-8");
             req_end].
Proof.
  split; [reflexivity|]. eexists. split; vm_compute; reflexivity.
Defined.

(** The caller's headers object, at reference 0, receives the entry. *)
Lemma wrapper_mutates_caller_headers_witness :
  snd (post (rt := reference_runtime) sample_url sample_data
         (Some headers_options) {[ O := [("accept", "*/*")] ]} quiet_host [])
  !! O
  = Some ([("accept", "*/*")] ++ [("content-type", "application/json")]).
Proof.
  apply (wrapper_mutates_caller_headers (rt := reference_runtime) post POST
           sample_url sample_data (Some headers_options)
           {[ O := [("accept", "*/*")] ]} quiet_host [] O [("accept", "*/*")]
           (Some ("{" +:+ String Codec.dquote "x" +:+ String Codec.dquote ":1}")));
    [apply list_elem_of_here | reflexivity | reflexivity | reflexivity
    | reflexivity | vm_compute; reflexivity].
Defined.

(** C10 as stated fails: a BigInt is not a string and the caller's
    headers have no content-type key, but [JSON.stringify] throws and
    [post] leaves the headers as they were. *)
Lemma wrapper_throws_before_it_touches_headers :
  is_string (VBigInt 1) = false
  /\ js_get ([] : JsObj string) "content-type" = None
  /\ post (rt := reference_runtime) sample_url (VBigInt 1)
       (Some headers_options) {[ O := [] ]} quiet_host []
     = (inl Codec.bigint_error, {[ O := [] ]}).
Proof. split_and!; reflexivity. Defined.

(** ** Examples *)

(** A malformed body rejects a json call with the parse error. *)
Example malformed_json_rejects :
  promise (request (rt := reference_runtime) sample_url sample_options ∅
             quiet_host
             [req_response 200 "OK" None;
              res_data O (list_byte_of_string "{a:"); res_end O])
  = Some (Rejected at_parse
            (new_Error
               "Failed to parse response: SyntaxError: Unexpected token in JSON")).
Proof. vm_compute. reflexivity. Qed.

(** After the timer has fired, the abort event calls [reject] again; the
    promise holds the first of the two outcomes. *)
Example timeout_then_abort :
  settle_calls (request (rt := reference_runtime) sample_url sample_options ∅
                  quiet_host [timer_fires; req_abort_event])
  = [Rejected at_timeout (new_Error "Request timeout after 100ms");
     Rejected at_abort (new_Error "Request aborted")].
Proof. vm_compute. reflexivity. Qed.

(** A rejected [setProxy] is reported wrapped, and nothing is requested. *)
Example proxy_setup_failure :
  let h := {| Date_now := 1; Math_random := "0.5";
              setProxy_rejects := Some (new_Error "ERR_PROXY");
              net_request_throws := None;
              setHeader_throws := fun _ _ => None |} in
  promise (request (rt := reference_runtime) sample_url proxied_options ∅ h
             [req_abort_event])
  = Some (Rejected at_catch
            (new_Error "Failed to setup proxy: Error: ERR_PROXY"))
  /\ calls (request (rt := reference_runtime) sample_url proxied_options ∅ h
              [req_abort_event])
     = [session_fromPartition "temp-request-1-0.5" false;
        setProxy (PartitionSession "temp-request-1-0.5")
          "socks5://127.0.0.1:7890"].
Proof. split; vm_compute; reflexivity. Qed.

(** ** What the setup does *)

Lemma truthy_partition h : truthy (Some (partition_name h)) = true.
Proof. reflexivity. Qed.

Section Start.
Context {rt : Runtime} (url : string) (options : RequestOptions.t).
Context (heap : Heap) (h : Host).

(** [set_headers] applies the entries in order up to the first one the
    host refuses. *)
Lemma set_headers_result entries s :
  (Forall (fun kv => setHeader_throws h (fst kv) (snd kv) = None) entries /\
   set_headers h entries s
   = (None, with_calls (calls s ++ header_calls entries) s))
  \/ (exists pre key value post cause,
        entries = pre ++ (key, value) :: post /\
        Forall (fun kv => setHeader_throws h (fst kv) (snd kv) = None) pre /\
        setHeader_throws h key value = Some cause /\
        set_headers h entries s
        = (Some cause,
           with_calls (calls s ++ header_calls (pre ++ [(key, value)])) s)).
Proof.
  revert s. induction entries as [|[k v] entries IH]; intros s.
  - left. split; [constructor|]. simpl. unfold ret. f_equal.
    destruct s; simpl. by rewrite app_nil_r.
  - simpl. unfold bind, call, modify. simpl.
    destruct (setHeader_throws h k v) as [cause|] eqn:Hk.
    + right. exists [], k, v, entries, cause. by split_and!.
    + destruct (IH (with_calls (calls s ++ [setHeader k v]) s))
        as [[Hall ->]|(pre & key & value & post & cause & -> & Hpre & Hc & ->)].
      * left. split; [by constructor|]. f_equal. destruct s; simpl.
        by rewrite <- app_assoc.
      * right. exists ((k, v) :: pre), key, value, post, cause.
        split_and!; [done | by constructor | done |].
        f_equal. destruct s; simpl. by rewrite <- app_assoc.
Qed.

(** The state the setup leaves: the request is issued, or the [.catch]
    handler has rejected the call after the setup of the proxy,
    [net.request] or a [setHeader] failed. *)
Lemma start_shape :
  let s := exec (start url options heap h) initial in
  tempPartition s
  = match proxy options with
    | Some (ProxyTo _) => Some (partition_name h)
    | _ => None
    end
  /\ redirectCount s = 0 /\ chunks s = [] /\ responses s = []
  /\ ((accepts options heap h
       /\ listening s = true /\ promise s = None /\ settle_calls s = []
       /\ sessionToUse s = issued_session options h
       /\ timeoutId s = (if 0 <? timeout options then Armed else NoTimer)
       /\ calls s
          = proxy_calls options h
            ++ issue_call url options h
               :: header_calls (headers options heap)
            ++ timer_calls options ++ body_calls (body options) ++ [req_end])
      \/ (exists cause sent,
            listening s = false
            /\ promise s = Some (Rejected at_catch (setup_error cause))
            /\ settle_calls s = [Rejected at_catch (setup_error cause)]
            /\ timeoutId s = NoTimer
            /\ sessionToUse s
               = match proxy options with
                 | Some (ProxyTo _) => NullSession
                 | _ => DefaultSession
                 end
            /\ calls s = proxy_calls options h ++ sent
            /\ refused url options heap h cause sent)).
Proof.
  unfold start, setupProxy, issue, exec, bind, read, call, modify, ret.
  unfold refused, accepts, proxy_calls, issue_call, timer_calls, body_calls.
  unfold issued_session, redirect_mode, partition_name, proxy_rules, setup_error.
  simpl.
  destruct (proxy options) as [[|p]|] eqn:Hproxy; simpl.
  all: try (destruct (setProxy_rejects h) as [c0|] eqn:Hsp; simpl;
    [ unfold_handlers; simpl; split_and!; [done..|];
      right; exists c0, []; split_and!; [done..|];
      left; split_and!; [done | done | by eexists] |]).
  all: (destruct (net_request_throws h) as [c1|] eqn:Hnr; simpl;
    [ unfold_handlers; simpl; split_and!; [done..|];
      right; exists c1; eexists; split_and!; [done..|];
      right; (split; [intros ? ?; by simplify_eq | left; by split]) |]).
  all: match goal with
       | |- context [set_headers h ?es ?s] =>
           destruct (set_headers_result es s)
             as [[Hall ->]|(pre & key & value & post & cause & Hes & Hpre & Hc & ->)]
       end; simpl.
  all: try (unfold_handlers; simpl; split_and!; [done..|];
            right; exists cause; eexists; split_and!; [done..|];
            right; (split; [intros ? ?; by simplify_eq |]);
            right; exists pre, key, value, post; by split_and!).
  all: destruct (0 <? timeout options); simpl; unfold body_truthy;
    destruct (body options) as [[sb|bb]|]; simpl;
    try destruct (String.eqb sb ""); simpl;
    unfold_handlers; simpl; (split_and!; [done..|]); left;
    rewrite <- ?app_assoc; simpl;
    (split_and!; [ intros ? ?; by simplify_eq | done..]).
Qed.
End Start.

Section Issued.
Context {rt : Runtime} (url : string) (options : RequestOptions.t).
Context (heap : Heap) (h : Host).

(** The listeners and the timer callback only ever abort the request or
    clear the timer. *)
Lemma handle_handler_calls e s :
  exists cs,
    calls (exec (handle url options e) s) = calls s ++ cs
    /\ Forall (fun c => handler_call c = true) cs.
Proof.
  by_cases s e;
    repeat match goal with
    | |- context [(?l ++ [?a]) ++ [?b]] => rewrite <- (app_assoc l [a] [b]); simpl
    end;
    try (eexists; split; [reflexivity|]; by repeat constructor);
    try (exists []; split; [by rewrite app_nil_r | constructor]).
Qed.

Lemma request_handler_calls events :
  exists rest,
    calls (request url options heap h events)
    = calls (exec (start url options heap h) initial) ++ rest
    /\ Forall (fun c => handler_call c = true) rest.
Proof.
  apply (request_ind url options heap h (fun _ s =>
    exists rest,
      calls s = calls (exec (start url options heap h) initial) ++ rest
      /\ Forall (fun c => handler_call c = true) rest)).
  - exists []. split; [by rewrite app_nil_r | constructor].
  - intros _ e s (cs & Hcs & Hall).
    destruct (handle_handler_calls e s) as (cs' & -> & Hall').
    exists (cs ++ cs'). rewrite Hcs, app_assoc. split; [done|].
    by apply Forall_app.
Qed.

Lemma request_listening events :
  listening (request url options heap h events)
  = listening (exec (start url options heap h) initial).
Proof.
  apply (request_ind url options heap h (fun _ s =>
    listening s = listening (exec (start url options heap h) initial)));
    [done|]. intros _ e s <-. apply handle_listening.
Qed.

(** A host that refuses a call does not accept the setup. *)
Lemma refused_not_accepted cause sent :
  refused url options heap h cause sent -> ~ accepts options heap h.
Proof.
  intros [(_ & Hr & p & Hp)|(_ & [(_ & Hn)|(pre & k & v & post & Hh & _ & Hc & _)])]
    (Hproxy & Hnet & Hall).
  - specialize (Hproxy p Hp). congruence.
  - congruence.
  - rewrite Hh in Hall. apply Forall_app in Hall as [_ Hall].
    apply Forall_cons in Hall as [Hkv _]. simpl in Hkv. congruence.
Qed.

(** The request is issued exactly when the host accepts the setup. *)
Lemma issued_iff_accepted events :
  listening (request url options heap h events) = true <-> accepts options heap h.
Proof.
  rewrite request_listening.
  destruct (start_shape url options heap h)
    as (_ & _ & _ & _ & [(Hacc & HL & _)|(c & sent & HL & _ & _ & _ & _ & _ & Hwhy)]).
  - by rewrite HL.
  - rewrite HL. split; [done|]. intros Hacc.
    by destruct (refused_not_accepted c sent Hwhy).
Qed.
End Issued.

(** X1: when the host accepts every call of the setup, the setup of a
    call ([setupProxy], then the callback of [.then]) makes, before the
    first event, the calls of the proxy setup, [net.request], one
    [setHeader] per header in the order of the entries, [setTimeout] for
    a positive timeout, the write of a non-empty body and [req.end], in
    this order; whatever events follow, the call only adds aborts and
    [clearTimeout]s. *)
Theorem request_setup_calls {rt : Runtime} url options heap h events :
  accepts options heap h ->
  exists rest,
    calls (request url options heap h events)
    = proxy_calls options h
      ++ issue_call url options h
         :: header_calls (headers options heap)
      ++ timer_calls options ++ body_calls (body options) ++ [req_end]
      ++ rest
    /\ Forall (fun c => handler_call c = true) rest
    /\ (events = [] -> rest = []).
Proof.
  intros Hacc.
  destruct (start_shape url options heap h)
    as (_ & _ & _ & _ & [(_ & _ & _ & _ & _ & _ & Hc)|(c & sent & _ & _ & _ & _ & _ & _ & Hwhy)]);
    [|by destruct (refused_not_accepted url options heap h c sent Hwhy)].
  destruct (request_handler_calls url options heap h events) as (rest & Hr & Hall).
  exists rest. split_and!; [|done|].
  - rewrite Hr, Hc. rewrite <- app_assoc. simpl. by rewrite <- !app_assoc.
  - intros ->. unfold request in Hr. simpl in Hr.
    symmetry in Hr. rewrite <- (app_nil_r (calls _)) in Hr at 2.
    by apply app_inv_head in Hr.
Qed.

(** X2: when the host refuses a call of the setup, the handler of
    [.catch] rejects the call with the wrapped setup error before any
    event, and nothing the host emits afterwards changes its state; no
    timer was started, no body written, and the request was neither
    ended nor aborted. *)
Theorem refused_setup_is_final {rt : Runtime} url options heap h events :
  ~ accepts options heap h ->
  request url options heap h events = request url options heap h []
  /\ (exists cause,
        promise (request url options heap h events)
        = Some (Rejected at_catch (setup_error cause)))
  /\ Forall (fun c => context_call c = true \/ exists key value, c = setHeader key value)
       (calls (request url options heap h events)).
Proof.
  intros Hno.
  destruct (start_shape url options heap h)
    as (_ & _ & _ & Hres & [(Hacc & _)|(c & sent & HL & Hp & _ & Ht & _ & Hc & Hwhy)]);
    [done|].
  assert (Hsame : request url options heap h events = request url options heap h []).
  { unfold request. simpl. by apply deliver_unissued. }
  rewrite Hsame. unfold request. simpl. split_and!; [done | by exists c |].
  rewrite Hc. apply Forall_app. split.
  - unfold proxy_calls. destruct (proxy options) as [[|p]|];
      repeat constructor.
  - destruct Hwhy as [(-> & _)|(_ & [(-> & _)|(pre & k & v & post & _ & _ & _ & _ & ->)])].
    + constructor.
    + repeat constructor.
    + constructor; [by left|]. unfold header_calls.
      apply Forall_fmap, Forall_forall. intros [k' v'] _. right. by eexists _, _.
Qed.

Lemma filter_none {A} (P : A -> Prop) `{forall x, Decision (P x)} (l : list A) :
  Forall (fun x => ~ P x) l -> filter P l = [].
Proof.
  induction 1 as [|x l Hx _ IH]; [done|]. by rewrite filter_cons_False.
Qed.

Lemma first_refusal_unique {A} (ok : A -> Prop) (pre pre' post post' : list A) x x' :
  pre ++ x :: post = pre' ++ x' :: post' ->
  Forall ok pre -> ~ ok x -> Forall ok pre' -> ~ ok x' ->
  pre = pre' /\ x = x'.
Proof.
  revert pre'. induction pre as [|a pre IH]; intros [|a' pre'] Heq Hpre Hx Hpre' Hx';
    simplify_eq/=.
  - done.
  - apply Forall_cons in Hpre' as [Ha _]. done.
  - apply Forall_cons in Hpre as [Ha _]. done.
  - apply Forall_cons in Hpre as [_ Hpre]. apply Forall_cons in Hpre' as [_ Hpre'].
    destruct (IH pre' H0 Hpre Hx Hpre' Hx') as [-> ->]. done.
Qed.

Lemma header_calls_are_setHeader entries :
  Forall (fun c => exists key value, c = setHeader key value) (header_calls entries).
Proof.
  unfold header_calls. apply Forall_fmap, Forall_forall.
  intros [k v] _. by eexists _, _.
Qed.

Section Counting.
Context {rt : Runtime} (url : string) (options : RequestOptions.t).
Context (heap : Heap) (h : Host).

(** The calls of one kind among the calls of a call of [request] are
    those of that kind among the calls of the setup, when the handlers
    make none of that kind. *)
Lemma filter_request_calls (P : HostCall -> Prop) `{forall c, Decision (P c)} events :
  (forall c, handler_call c = true -> ~ P c) ->
  filter P (calls (request url options heap h events))
  = filter P (calls (exec (start url options heap h) initial)).
Proof.
  intros HP.
  destruct (request_handler_calls url options heap h events) as (rest & -> & Hall).
  rewrite filter_app, (filter_none P rest), app_nil_r; [done|].
  eapply Forall_impl; [exact Hall | exact HP].
Qed.

End Counting.

(** X3: the headers are applied in the order of the entries up to the
    first one the host refuses: the entries after it are never applied,
    the call is rejected with the wrapped setup error, and the request,
    though created, is never ended or aborted and has no timer. *)
Theorem refused_header_stops_setup {rt : Runtime}
    url options heap h events pre key value post cause :
  (forall p, proxy options = Some (ProxyTo p) -> setProxy_rejects h = None) ->
  net_request_throws h = None ->
  headers options heap = pre ++ (key, value) :: post ->
  Forall (fun kv => setHeader_throws h (fst kv) (snd kv) = None) pre ->
  setHeader_throws h key value = Some cause ->
  promise (request url options heap h events)
  = Some (Rejected at_catch (setup_error cause))
  /\ calls (request url options heap h events)
     = proxy_calls options h
       ++ issue_call url options h :: header_calls (pre ++ [(key, value)]).
Proof.
  intros Hproxy Hnet Hh Hpre Hc.
  destruct (start_shape url options heap h)
    as (_ & _ & _ & Hres & [((_ & _ & Hall) & _)|(c & sent & HL & Hp & _ & Ht & _ & Hcalls & Hwhy)]).
  { rewrite Hh in Hall. apply Forall_app in Hall as [_ Hall].
    apply Forall_cons in Hall as [Hkv _]. simpl in Hkv. congruence. }
  assert (Hsame : request url options heap h events = request url options heap h []).
  { unfold request. simpl. by apply deliver_unissued. }
  rewrite Hsame. unfold request. simpl. rewrite Hp, Hcalls.
  destruct Hwhy as [(_ & Hr & p & Hpp)|(_ & [(_ & Hn)|(pre' & k' & v' & post' & Hh' & Hpre' & Hc' & _ & ->)])].
  - specialize (Hproxy p Hpp). congruence.
  - congruence.
  - rewrite Hh in Hh'.
    destruct (first_refusal_unique
                (fun kv => setHeader_throws h (fst kv) (snd kv) = None)
                pre pre' post post' (key, value) (k', v') Hh' Hpre)
      as [-> Heq]; simpl; [congruence | done | congruence |].
    injection Heq as <- <-. split; [congruence | done].
Qed.

Lemma request_issue_calls {rt : Runtime} url options heap h events :
  filter (fun c => is_net_request c = true)
    (calls (request url options heap h events))
  = match proxy options, setProxy_rejects h with
    | Some (ProxyTo _), Some _ => []
    | _, _ => [issue_call url options h]
    end.
Proof.
  rewrite filter_request_calls by (by intros []).
  destruct (start_shape url options heap h)
    as (_ & _ & _ & _ & [((Hproxy & _) & _ & _ & _ & _ & _ & ->)|(c & sent & _ & _ & _ & _ & _ & -> & Hwhy)]).
  - rewrite filter_app, filter_cons_True, !filter_app by done.
    rewrite (filter_none _ (proxy_calls options h)), (filter_none _ (header_calls _)),
      (filter_none _ (timer_calls _)), (filter_none _ (body_calls _)).
    + simpl. destruct (proxy options) as [[|p]|]; try done.
      by rewrite (Hproxy p eq_refl).
    + unfold body_calls. destruct (body options) as [[s|b]|];
        try destruct (String.eqb s ""); by repeat constructor.
    + unfold timer_calls. destruct (0 <? timeout options); by repeat constructor.
    + eapply Forall_impl; [apply header_calls_are_setHeader|].
      by intros ? (? & ? & ->).
    + unfold proxy_calls. destruct (proxy options) as [[|p]|]; by repeat constructor.
  - rewrite filter_app. 
    rewrite (filter_none _ (proxy_calls options h))
      by (unfold proxy_calls; destruct (proxy options) as [[|p]|]; by repeat constructor).
    destruct Hwhy as [(-> & -> & p & ->)|(Hproxy & Hwhy)]; [done|].
    assert (Hsent : filter (fun c => is_net_request c = true) sent
                    = [issue_call url options h]).
    { destruct Hwhy as [(-> & _)|(pre & k & v & post & _ & _ & _ & _ & ->)];
        rewrite filter_cons_True by done; [done|].
      rewrite filter_none; [done|].
      eapply Forall_impl; [apply header_calls_are_setHeader|].
      by intros ? (? & ? & ->). }
    rewrite Hsent. simpl. destruct (proxy options) as [[|p]|]; try done.
    by rewrite (Hproxy p eq_refl).
Qed.

(** X4: a call of [request] creates at most one request: none when the
    setup of the proxy fails, and otherwise exactly one, with the method
    of the options (GET by default), the url, the session chosen by the
    proxy option (never the dropped one), the redirect mode of
    [followRedirect] and the session cookies on. *)
Theorem request_issued_once {rt : Runtime} url options heap h events :
  filter (fun c => is_net_request c = true)
    (calls (request url options heap h events))
  = match proxy options, setProxy_rejects h with
    | Some (ProxyTo _), Some _ => []
    | _, _ => [issue_call url options h]
    end
  /\ (forall m u session mode cookies,
        net_request m u session mode cookies
        ∈ calls (request url options heap h events) ->
        net_request m u session mode cookies = issue_call url options h
        /\ session <> NullSession).
Proof.
  split; [apply request_issue_calls|].
  intros m u session mode cookies Hin.
  assert (Hf : net_request m u session mode cookies
               ∈ filter (fun c => is_net_request c = true)
                   (calls (request url options heap h events)))
    by (by apply list_elem_of_filter).
  rewrite request_issue_calls in Hf.
  assert (Heq : net_request m u session mode cookies = issue_call url options h).
  { destruct (proxy options) as [[|p]|]; try destruct (setProxy_rejects h);
      try (by apply list_elem_of_singleton in Hf);
      by apply elem_of_nil in Hf. }
  split; [done|]. unfold issue_call, issued_session in Heq.
  injection Heq as _ _ -> _ _. by destruct (proxy options) as [[|p]|].
Qed.

Section Events.
Context {rt : Runtime} (url : string) (options : RequestOptions.t).
Context (heap : Heap) (h : Host).

Lemma start_makes_no_handler_call :
  Forall (fun c => handler_call c = false)
    (calls (exec (start url options heap h) initial)).
Proof.
  assert (Hp : Forall (fun c => handler_call c = false) (proxy_calls options h)).
  { unfold proxy_calls. destruct (proxy options) as [[|p]|]; by repeat constructor. }
  assert (Hh : forall entries,
    Forall (fun c => handler_call c = false) (header_calls entries)).
  { intros entries. eapply Forall_impl; [apply header_calls_are_setHeader|].
    by intros ? (? & ? & ->). }
  destruct (start_shape url options heap h)
    as (_ & _ & _ & _ & [(_ & _ & _ & _ & _ & _ & ->)|(c & sent & _ & _ & _ & _ & _ & -> & Hwhy)]).
  - rewrite !Forall_app, Forall_cons, !Forall_app. split_and!; try done.
    + unfold timer_calls. destruct (0 <? timeout options); by repeat constructor.
    + unfold body_calls. destruct (body options) as [[s|b]|];
        try destruct (String.eqb s ""); by repeat constructor.
    + by repeat constructor.
  - apply Forall_app. split; [done|].
    destruct Hwhy as [(-> & _)|(_ & [(-> & _)|(pre & k & v & post & _ & _ & _ & _ & ->)])];
      [constructor | by repeat constructor | by constructor].
Qed.

(** The request is aborted only by the timer callback or by a redirect
    past the limit. *)
Lemma abort_has_a_cause events :
  let s := request url options heap h events in
  (req_abort ∈ calls s ->
   timeoutId s = Fired \/ maxRedirects options < redirectCount s)
  /\ (timeoutId s = Fired -> timer_fires ∈ events).
Proof.
  apply (request_ind url options heap h (fun events s =>
    (req_abort ∈ calls s ->
     timeoutId s = Fired \/ maxRedirects options < redirectCount s)
    /\ (timeoutId s = Fired -> timer_fires ∈ events))).
  - split.
    + intros Hin. pose proof start_makes_no_handler_call as Hall.
      rewrite Forall_forall in Hall. by specialize (Hall _ Hin).
    + destruct (start_shape url options heap h)
        as (_ & _ & _ & _ & [(_ & _ & _ & _ & _ & -> & _)|(c & sent & _ & _ & _ & -> & _)]);
        [by destruct (0 <? timeout options) | done].
  - intros evs e s [Ha Hf].
    assert (Hold : timeoutId s = Fired -> timer_fires ∈ evs ++ [e])
      by (intros ?; apply elem_of_app; left; auto).
    assert (Hnew : e = timer_fires -> timer_fires ∈ evs ++ [e])
      by (intros ->; apply elem_of_app; right; apply list_elem_of_here).
    clear Hf. revert Ha Hold Hnew.
    by_cases s e; intros Ha Hold Hnew; (split; [|by auto]);
      rewrite ?elem_of_app, ?list_elem_of_singleton;
      use_tests; intuition (try congruence; try lia).
Qed.
End Events.

(** X5: [request] aborts the request only on behalf of the timer or of
    the redirect limit: an abort among its calls means that the timer of
    a positive timeout has fired or that the redirect events outnumber
    [maxRedirects]; errors, aborts and ends reported by the host never
    make it abort. *)
Theorem abort_only_on_timeout_or_redirects {rt : Runtime}
    url options heap h events :
  req_abort ∈ calls (request url options heap h events) ->
  (0 < timeout options /\ timer_fires ∈ events)
  \/ maxRedirects options < redirects events.
Proof.
  intros Hin.
  destruct (abort_has_a_cause url options heap h events) as [Ha Hf].
  destruct (Ha Hin) as [Hfired|Hlt].
  - left. split; [|by apply Hf].
    pose proof (request_Inv url options heap h events) as [_ _ _ _ Hdis _ _ _].
    destruct (Z.lt_ge_cases 0 (timeout options)) as [|Hle]; [done|].
    rewrite (Hdis Hle) in Hfired. done.
  - right. destruct (request_counters url options heap h events) as [Hle _]. lia.
Qed.

(** X6: once the call has settled, the expiry of the timer changes
    nothing: the callback of [setTimeout] does not run, so the request
    is not aborted after the fact. *)
Theorem late_timer_is_ignored {rt : Runtime} url options heap h events :
  is_Some (promise (request url options heap h events)) ->
  request url options heap h (events ++ [timer_fires])
  = request url options heap h events.
Proof.
  intros [o Ho]. rewrite request_snoc.
  pose proof (request_Inv url options heap h events) as [_ _ Harm _ _ _ _ _].
  destruct (request url options heap h events) as [p sc c su tp l t ch rc rs].
  simpl in *. destruct t; try done. specialize (Harm eq_refl). congruence.
Qed.

(** X7: an event whose handler has no reason to settle the call leaves
    the promise alone: response headers, data chunks, redirects within
    the limit, events of a [res] object that does not exist and the
    expiry of a timer that is not armed neither resolve nor reject. *)
Theorem quiet_event_keeps_promise {rt : Runtime} url options heap h events e :
  terminal options (request url options heap h events) e = false ->
  promise (request url options heap h (events ++ [e]))
  = promise (request url options heap h events)
  /\ settle_calls (request url options heap h (events ++ [e]))
     = settle_calls (request url options heap h events).
Proof.
  rewrite request_snoc. generalize (request url options heap h events) as s.
  intros s He. by_cases s e; simplify_eq/=; try done.
  all: match goal with
       | H : ?x = Some _, T : context [?x] |- _ => rewrite H in T; discriminate
       | H : (_ <? _) = true, T : (_ <? _) = false |- _ => congruence
       end.
Qed.

(** X8: on a pending call an error of the request or of a response
    rejects with the very error the host reported, and an abort reported
    by the host rejects with the abort error; in each case the timer is
    cleared and the request is not aborted again. *)
Theorem pending_failure_rejects {rt : Runtime} url options heap h events :
  promise (request url options heap h events) = None ->
  (forall error,
     promise (request url options heap h (events ++ [req_error error]))
     = Some (Rejected at_req_error error)
     /\ calls (request url options heap h (events ++ [req_error error]))
        = calls (request url options heap h events)
          ++ (if 0 <? timeout options then [clearTimeout] else []))
  /\ (forall i error,
        is_Some (responses (request url options heap h events) !! i) ->
        promise (request url options heap h (events ++ [res_error i error]))
        = Some (Rejected at_res_error error)
        /\ calls (request url options heap h (events ++ [res_error i error]))
           = calls (request url options heap h events)
             ++ (if 0 <? timeout options then [clearTimeout] else []))
  /\ (promise (request url options heap h (events ++ [req_abort_event]))
      = Some (Rejected at_abort (new_Error "Request aborted"))
      /\ calls (request url options heap h (events ++ [req_abort_event]))
         = calls (request url options heap h events)
           ++ (if 0 <? timeout options then [clearTimeout] else [])).
Proof.
  intros Hp.
  pose proof (request_Inv url options heap h events) as [_ Hpend _ _ _ _ _ _].
  destruct (Hpend Hp) as [HL Ht].
  split_and!; [intros error | intros i error [res Hres] | |];
    rewrite !request_snoc;
    destruct (request url options heap h events) as [p sc c su tp l t ch rc rs];
    simpl in *; subst; unfold_handlers; simpl; rewrite ?Hres;
    destruct (0 <? timeout options); simpl; crunch; by rewrite ?app_nil_r.
Qed.

(** X9: the session reference of a call follows its settlement: without
    a proxy it is the default session throughout; with a proxy
    descriptor it is the session of the partition while the call is
    pending and is dropped as soon as the call has settled, on every
    path. *)
Theorem session_follows_settlement {rt : Runtime} url options heap h events :
  tempPartition (request url options heap h events)
  = match proxy options with
    | Some (ProxyTo _) => Some (partition_name h)
    | _ => None
    end
  /\ sessionToUse (request url options heap h events)
     = match proxy options with
       | Some (ProxyTo _) =>
           match promise (request url options heap h events) with
           | Some _ => NullSession
           | None => PartitionSession (partition_name h)
           end
       | _ => DefaultSession
       end.
Proof.
  apply (request_ind url options heap h (fun _ s =>
    tempPartition s
    = match proxy options with
      | Some (ProxyTo _) => Some (partition_name h)
      | _ => None
      end
    /\ sessionToUse s
       = match proxy options with
         | Some (ProxyTo _) =>
             match promise s with
             | Some _ => NullSession
             | None => PartitionSession (partition_name h)
             end
         | _ => DefaultSession
         end)).
  - destruct (start_shape url options heap h)
      as (-> & _ & _ & _ & [(_ & _ & -> & _ & -> & _)|(c & sent & _ & -> & _ & _ & -> & _)]);
      unfold issued_session; by destruct (proxy options) as [[|p]|].
  - intros _ e s [Htp Hs].
    destruct (proxy options) as [[|p]|];
      destruct s; simpl in *; subst; destruct e; unfold_handlers; simpl;
      rewrite ?truthy_partition; simpl; crunch; simpl; done.
Qed.

Section Follow.
Context {rt : Runtime} (url : string) (options : RequestOptions.t).
Context (heap : Heap) (h : Host).

Lemma request_responses events :
  listening (request url options heap h events) = true ->
  responses (request url options heap h events) = responses_of events.
Proof.
  apply (request_ind url options heap h (fun events s =>
    listening s = true -> responses s = responses_of events)).
  - destruct (start_shape url options heap h) as (_ & _ & _ & -> & _). done.
  - intros evs e s IH. rewrite handle_listening. intros HL.
    specialize (IH HL). unfold responses_of in *. rewrite omap_app. simpl.
    revert IH HL. by_cases s e; intros <- HL; simplify_eq/=; by rewrite ?app_nil_r.
Qed.
End Follow.

(** X10: while the request is issued, the state of the call is read off
    the events: the redirect counter is the number of redirect events,
    the [res] objects are the response events in their order, and the
    chunks are those of the data events that name an existing [res]
    object, in their order. *)
Theorem state_follows_events {rt : Runtime} url options heap h events :
  accepts options heap h ->
  redirectCount (request url options heap h events) = redirects events
  /\ responses (request url options heap h events) = responses_of events
  /\ chunks (request url options heap h events) = received events.
Proof.
  intros Hacc. apply (issued_iff_accepted url options heap h events) in Hacc.
  destruct (request_counters url options heap h events) as [_ Hc].
  destruct (Hc Hacc) as (Hr & _ & Hch).
  split_and!; [done | by apply request_responses | done].
Qed.

(** ** Lowercase keys *)

Lemma lower_ascii_idem c : lower_ascii (lower_ascii c) = lower_ascii c.
Proof. destruct c as [[] [] [] [] [] [] [] []]; reflexivity. Qed.

Lemma toLowerCase_idem s : toLowerCase (toLowerCase s) = toLowerCase s.
Proof. induction s as [|c s IH]; simpl; [done|]. by rewrite lower_ascii_idem, IH. Qed.

Lemma assign_header_lowercase acc name value key :
  is_Some (assign_header acc (toLowerCase name) value !! key) ->
  is_Some (acc !! key) \/ toLowerCase key = key.
Proof.
  rewrite assign_header_lookup.
  destruct (String.eqb (toLowerCase name) "__proto__"); [by left|].
  destruct (String.eqb_spec (toLowerCase name) key) as [<-|_]; [|by left].
  intros _. right. apply toLowerCase_idem.
Qed.

(** Whatever the raw sequence, of even length or not, the loop adds
    lowercase keys only. *)
Lemma extract_headers_lowercase raw key :
  (forall acc,
     is_Some (extract_headers raw acc !! key) ->
     is_Some (acc !! key) \/ toLowerCase key = key)
  /\ (forall name acc,
        is_Some (extract_headers (name :: raw) acc !! key) ->
        is_Some (acc !! key) \/ toLowerCase key = key).
Proof.
  induction raw as [|value raw [IH1 IH2]].
  - split; [by left|]. intros name acc. apply assign_header_lowercase.
  - split; [exact (IH2 value)|]. intros name acc Hk. simpl in Hk.
    destruct (IH1 _ Hk) as [Hacc|?]; [|by right].
    by apply assign_header_lowercase in Hacc.
Qed.

(** X11: the headers object of a resolved response has no property of
    its own under a key that holds an uppercase letter, such as
    Content-Type, whatever the host sent. *)
Theorem response_header_keys_are_lowercase {rt : Runtime}
    url options heap h events r key :
  promise (request url options heap h events) = Some (Resolved r) ->
  toLowerCase key <> key ->
  Response.headers r !! key = None.
Proof.
  intros Hp Hkey.
  apply request_resolved in Hp as (pre & i & post & res & -> & Hres & Hr).
  apply response_of_fields in Hr as (_ & _ & _ & -> & _).
  apply list_elem_of_lookup_2, responses_from_events in Hres
    as (c & m & raw & _ & ->). simpl.
  apply eq_None_not_Some. intros Hk.
  destruct (proj1 (extract_headers_lowercase (default [] raw) key) ∅ Hk)
    as [Hempty|?]; [|done].
  rewrite lookup_empty in Hempty. by destruct Hempty.
Qed.

(** The sample response holds its content type under content-type and
    nothing under Content-Type. *)
Lemma response_header_keys_are_lowercase_witness :
  sample_headers !! "Content-Type" = None.
Proof.
  apply (response_header_keys_are_lowercase (rt := reference_runtime)
           sample_url sample_options ∅ quiet_host (sample_response ++ [res_end O])
           {| Response.data := DataJson (VObj [("a", VNum 1)]);
              Response.status := 200;
              Response.statusText := "OK";
              Response.headers := sample_headers;
              Response.url := sample_url |} "Content-Type").
  - vm_compute. reflexivity.
  - vm_compute. discriminate.
Defined.

(** ** The wrappers and the request they issue *)

Lemma request_write_calls {rt : Runtime} url options heap h events :
  filter (fun c => is_write c = true) (calls (request url options heap h events))
  = if listening (request url options heap h events)
    then body_calls (body options) else [].
Proof.
  rewrite filter_request_calls by (by intros []). rewrite request_listening.
  assert (Hp : filter (fun c => is_write c = true) (proxy_calls options h) = []).
  { apply filter_none. unfold proxy_calls.
    destruct (proxy options) as [[|p]|]; by repeat constructor. }
  assert (Hh : forall entries,
    filter (fun c => is_write c = true) (header_calls entries) = []).
  { intros entries. apply filter_none.
    eapply Forall_impl; [apply header_calls_are_setHeader|].
    by intros ? (? & ? & ->). }
  destruct (start_shape url options heap h)
    as (_ & _ & _ & _ & [(_ & -> & _ & _ & _ & _ & ->)|(c & sent & -> & _ & _ & _ & _ & -> & Hwhy)]).
  - rewrite filter_app, filter_cons_False, !filter_app, Hp, Hh by done. simpl.
    rewrite (filter_none _ (timer_calls options))
      by (unfold timer_calls; destruct (0 <? timeout options); by repeat constructor).
    rewrite filter_cons_False, filter_nil, app_nil_r by done. simpl.
    unfold body_calls. destruct (body options) as [[s|b]|];
      try destruct (String.eqb s ""); try done;
      by rewrite filter_cons_True, filter_nil.
  - rewrite filter_app, Hp. simpl.
    destruct Hwhy as [(-> & _)|(_ & [(-> & _)|(pre & k & v & post & _ & _ & _ & _ & ->)])];
      [done | by rewrite filter_cons_False | by rewrite filter_cons_False, Hh].
Qed.

Section WrapperCalls.
Context {rt : Runtime}.

(** What [post], [put] and [patch] hand to [request] besides the body
    and the headers: their method and the caller's other options. *)
Lemma prepare_forwards m data options heap o heap' :
  prepare m data options heap = (inr o, heap') ->
  method o = m
  /\ proxy o = proxy (spread options)
  /\ timeout o = timeout (spread options)
  /\ responseType o = responseType (spread options)
  /\ followRedirect o = followRedirect (spread options)
  /\ maxRedirects o = maxRedirects (spread options)
  /\ body o
     = BodyString <$> match data with
                      | VStr s => Some s
                      | _ => match JSON_stringify data with
                             | inr b => b
                             | inl _ => None
                             end
                      end.
Proof.
  unfold prepare.
  destruct (match data with VStr s => inr (Some s) | _ => JSON_stringify data end)
    as [e|b] eqn:Hser; [done|].
  assert (Hb : match data with
               | VStr s => Some s
               | _ => match JSON_stringify data with inr b => b | inl _ => None end
               end = b).
  { destruct data; simplify_eq/=; try done; by rewrite Hser. }
  rewrite Hb.
  destruct (options ≫= RequestOptions.headers); simpl;
    destruct (negb (is_string data) && _); intros [= <- <-]; done.
Qed.
End WrapperCalls.

(** X12: every wrapper issues the request with its own method, whatever
    method the caller's options carry, on the session and with the
    redirect mode the caller's options ask for. *)
Theorem wrapper_issues_its_method {rt : Runtime} url options heap h events :
  (forall wrapper m,
     (wrapper, m) ∈ [(get, GET); (del, DELETE)] ->
     filter (fun c => is_net_request c = true)
       (calls (wrapper url options heap h events))
     = match proxy (spread options), setProxy_rejects h with
       | Some (ProxyTo _), Some _ => []
       | _, _ =>
           [net_request m url (issued_session (spread options) h)
              (redirect_mode (spread options)) true]
       end)
  /\ (forall wrapper m data s,
        (wrapper, m) ∈ [(post, POST); (put, PUT); (patch, PATCH)] ->
        fst (wrapper url data options heap h events) = inr s ->
        filter (fun c => is_net_request c = true) (calls s)
        = match proxy (spread options), setProxy_rejects h with
          | Some (ProxyTo _), Some _ => []
          | _, _ =>
              [net_request m url (issued_session (spread options) h)
                 (redirect_mode (spread options)) true]
          end).
Proof.
  split.
  - intros wrapper m Hw.
    repeat (apply elem_of_cons in Hw as [Hw|Hw];
            [injection Hw as -> ->;
             unfold get, del, without_body; by rewrite request_issue_calls|]).
    by apply elem_of_nil in Hw.
  - intros wrapper m data s Hw Hs.
    assert (Hany : forall m',
      fst (with_body m' url data options heap h events) = inr s ->
      filter (fun c => is_net_request c = true) (calls s)
      = match proxy (spread options), setProxy_rejects h with
        | Some (ProxyTo _), Some _ => []
        | _, _ =>
            [net_request m' url (issued_session (spread options) h)
               (redirect_mode (spread options)) true]
        end).
    { intros m'. unfold with_body.
      destruct (prepare m' data options heap) as [[e|o] heap'] eqn:Hprep; [done|].
      intros [= <-]. rewrite request_issue_calls.
      apply prepare_forwards in Hprep as (Hm & Hp & _ & _ & Hf & _ & _).
      unfold issue_call, issued_session, redirect_mode. by rewrite Hm, Hp, Hf. }
    repeat (apply elem_of_cons in Hw as [Hw|Hw];
            [injection Hw as -> ->; by apply Hany|]).
    by apply elem_of_nil in Hw.
Qed.

(** X13: a wrapper with a body changes no object of the caller other
    than the headers object of its options: every other object of the
    store is left as it was; with string data the headers object is left
    alone too; and when the serialization throws the store is
    untouched. *)
Theorem wrapper_leaves_other_objects {rt : Runtime}
    wrapper m url data options heap h events :
  (wrapper, m) ∈ [(post, POST); (put, PUT); (patch, PATCH)] ->
  (forall l,
     is_Some (heap !! l) ->
     options ≫= RequestOptions.headers <> Some l ->
     snd (wrapper url data options heap h events) !! l = heap !! l)
  /\ (is_string data = true ->
      forall l,
        is_Some (heap !! l) ->
        snd (wrapper url data options heap h events) !! l = heap !! l)
  /\ (forall error,
        fst (wrapper url data options heap h events) = inl error ->
        snd (wrapper url data options heap h events) = heap).
Proof.
  intros Hw.
  assert (Hfresh : forall l, is_Some (heap !! l) -> l <> fresh (dom heap)).
  { intros l Hl ->. apply elem_of_dom in Hl. by apply is_fresh in Hl. }
  assert (Hany : forall m',
    (forall l,
       is_Some (heap !! l) ->
       options ≫= RequestOptions.headers <> Some l ->
       snd (with_body m' url data options heap h events) !! l = heap !! l)
    /\ (is_string data = true ->
        forall l,
          is_Some (heap !! l) ->
          snd (with_body m' url data options heap h events) !! l = heap !! l)
    /\ (forall error,
          fst (with_body m' url data options heap h events) = inl error ->
          snd (with_body m' url data options heap h events) = heap)).
  { intros m'. unfold with_body, prepare.
    destruct (match data with VStr s => inr (Some s) | _ => JSON_stringify data end)
      as [e|b]; [by split_and!|].
    destruct (options ≫= RequestOptions.headers) as [l0|]; simpl;
      destruct (is_string data); simpl;
      try destruct (truthy _); simpl; split_and!; try done.
    all: try (intros l Hl Hne; rewrite ?lookup_insert_ne; [done|congruence..]).
    all: try (intros l Hl Hne; rewrite ?lookup_insert_ne; [done|by apply not_eq_sym, Hfresh..]).
    all: try (intros _ l Hl; rewrite ?lookup_insert_ne; [done|by apply not_eq_sym, Hfresh..]). }
  repeat (apply elem_of_cons in Hw as [Hw|Hw];
          [injection Hw as -> ->; by apply Hany|]).
  by apply elem_of_nil in Hw.
Qed.

(** X14: when the request of a wrapper is issued, the body written is
    the string given, or what [JSON.stringify] returned, once and as
    UTF-8; an empty string, or data whose serialization is [undefined],
    is not written at all. *)
Theorem wrapper_writes_body_once {rt : Runtime}
    wrapper m url data options heap h events s :
  (wrapper, m) ∈ [(post, POST); (put, PUT); (patch, PATCH)] ->
  fst (wrapper url data options heap h events) = inr s ->
  listening s = true ->
  filter (fun c => is_write c = true) (calls s)
  = match match data with
          | VStr str => Some str
          | _ => match JSON_stringify data with inr b => b | inl _ => None end
          end with
    | Some str =>
        if String.eqb str "" then []
        else [req_write (BodyString str) (Some "utf-8")]
    | None => []
    end.
Proof.
  intros Hw Hs HL.
  assert (Hany : forall m',
    fst (with_body m' url data options heap h events) = inr s ->
    filter (fun c => is_write c = true) (calls s)
    = body_calls
        (BodyString <$> match data with
                        | VStr str => Some str
                        | _ => match JSON_stringify data with
                               | inr b => b
                               | inl _ => None
                               end
                        end)).
  { intros m'. unfold with_body.
    destruct (prepare m' data options heap) as [[e|o] heap'] eqn:Hprep; [done|].
    intros [= <-]. rewrite request_write_calls, HL.
    apply prepare_forwards in Hprep as (_ & _ & _ & _ & _ & _ & ->). done. }
  assert (Hb : filter (fun c => is_write c = true) (calls s)
    = body_calls
        (BodyString <$> match data with
                        | VStr str => Some str
                        | _ => match JSON_stringify data with
                               | inr b => b
                               | inl _ => None
                               end
                        end)).
  { apply elem_of_cons in Hw as [Hw|Hw];
      [injection Hw as -> ->; exact (Hany POST Hs)|].
    apply elem_of_cons in Hw as [Hw|Hw];
      [injection Hw as -> ->; exact (Hany PUT Hs)|].
    apply elem_of_cons in Hw as [Hw|Hw];
      [injection Hw as -> ->; exact (Hany PATCH Hs)|].
    by apply elem_of_nil in Hw. }
  rewrite Hb.
  by destruct (match data with
               | VStr str => Some str
               | _ => match JSON_stringify data with inr b => b | inl _ => None end
               end).
Qed.

(** ** The further statements at sample inputs *)

(** A PUT of [hello] with two headers, redirects not followed. *)
Lemma request_setup_calls_witness :
  exists rest,
    calls (request (rt := reference_runtime) sample_url body_options
             {[ O := two_headers ]} quiet_host [])
    = proxy_calls body_options quiet_host
      ++ issue_call sample_url body_options quiet_host
         :: header_calls (headers body_options {[ O := two_headers ]})
      ++ timer_calls body_options ++ body_calls (body body_options) ++ [req_end]
      ++ rest
    /\ Forall (fun c => handler_call c = true) rest
    /\ (([] : list Event) = [] -> rest = []).
Proof.
  apply (request_setup_calls (rt := reference_runtime) sample_url body_options
           {[ O := two_headers ]} quiet_host []).
  split_and!; [intros p Hp; discriminate | reflexivity |].
  vm_compute. repeat constructor.
Defined.

(** [setProxy] fails: the abort the host reports later changes nothing. *)
Lemma refused_setup_is_final_witness :
  request (rt := reference_runtime) sample_url proxied_options ∅
    failing_proxy_host [req_abort_event]
  = request (rt := reference_runtime) sample_url proxied_options ∅
      failing_proxy_host []
  /\ (exists cause,
        promise (request (rt := reference_runtime) sample_url proxied_options ∅
                   failing_proxy_host [req_abort_event])
        = Some (Rejected at_catch (setup_error cause)))
  /\ Forall (fun c => context_call c = true \/ exists key value, c = setHeader key value)
       (calls (request (rt := reference_runtime) sample_url proxied_options ∅
                 failing_proxy_host [req_abort_event])).
Proof.
  apply (refused_setup_is_final (rt := reference_runtime) sample_url
           proxied_options ∅ failing_proxy_host [req_abort_event]).
  intros (Hproxy & _). specialize (Hproxy sample_proxy eq_refl). discriminate.
Defined.

(** The second of three headers is refused: the third is never set. *)
Lemma refused_header_stops_setup_witness :
  promise (request (rt := reference_runtime) sample_url headers_options
             {[ O := mixed_headers ]} strict_host [])
  = Some (Rejected at_catch
            (setup_error (new_Error "Invalid value for header 'x-note'")))
  /\ calls (request (rt := reference_runtime) sample_url headers_options
              {[ O := mixed_headers ]} strict_host [])
     = proxy_calls headers_options strict_host
       ++ issue_call sample_url headers_options strict_host
          :: header_calls ([("accept", "text/html")]
                           ++ [("x-note", "a" +:+ String "010"%char "b")]).
Proof.
  apply (refused_header_stops_setup (rt := reference_runtime) sample_url
           headers_options {[ O := mixed_headers ]} strict_host []
           [("accept", "text/html")] "x-note" ("a" +:+ String "010"%char "b")
           [("X-Token", "abc")] (new_Error "Invalid value for header 'x-note'")).
  - intros p Hp. discriminate.
  - reflexivity.
  - vm_compute. reflexivity.
  - vm_compute. repeat constructor.
  - vm_compute. reflexivity.
Defined.

(** The one request of a plain call. *)
Lemma request_issued_once_witness :
  net_request GET sample_url DefaultSession follow true
  = issue_call sample_url sample_options quiet_host
  /\ DefaultSession <> NullSession.
Proof.
  apply (proj2 (request_issued_once (rt := reference_runtime) sample_url
                  sample_options ∅ quiet_host [req_abort_event])).
  vm_compute. apply list_elem_of_here.
Defined.

(** Four redirects with [maxRedirects] 3 abort the request. *)
Lemma abort_only_on_timeout_or_redirects_witness :
  (0 < timeout sample_options /\ timer_fires ∈ four_redirects)
  \/ maxRedirects sample_options < redirects four_redirects.
Proof.
  apply (abort_only_on_timeout_or_redirects (rt := reference_runtime)
           sample_url sample_options ∅ quiet_host four_redirects).
  vm_compute. do 3 apply list_elem_of_further. apply list_elem_of_here.
Defined.

(** The timer of an aborted call expires. *)
Lemma late_timer_is_ignored_witness :
  request (rt := reference_runtime) sample_url sample_options ∅ quiet_host
    ([req_abort_event] ++ [timer_fires])
  = request (rt := reference_runtime) sample_url sample_options ∅ quiet_host
      [req_abort_event].
Proof.
  apply (late_timer_is_ignored (rt := reference_runtime) sample_url
           sample_options ∅ quiet_host [req_abort_event]).
  vm_compute. by eexists.
Defined.

(** A chunk of data leaves the call pending. *)
Lemma quiet_event_keeps_promise_witness :
  promise (request (rt := reference_runtime) sample_url sample_options ∅
             quiet_host ([req_response 200 "OK" None]
                         ++ [res_data O (list_byte_of_string "{")]))
  = promise (request (rt := reference_runtime) sample_url sample_options ∅
               quiet_host [req_response 200 "OK" None])
  /\ settle_calls (request (rt := reference_runtime) sample_url sample_options ∅
                     quiet_host ([req_response 200 "OK" None]
                                 ++ [res_data O (list_byte_of_string "{")]))
     = settle_calls (request (rt := reference_runtime) sample_url sample_options
                       ∅ quiet_host [req_response 200 "OK" None]).
Proof.
  apply (quiet_event_keeps_promise (rt := reference_runtime) sample_url
           sample_options ∅ quiet_host [req_response 200 "OK" None]
           (res_data O (list_byte_of_string "{"))).
  reflexivity.
Defined.

(** An error of the request on a pending call. *)
Lemma pending_failure_rejects_witness :
  promise (request (rt := reference_runtime) sample_url sample_options ∅
             quiet_host ([] ++ [req_error (new_Error "net::ERR_FAILED")]))
  = Some (Rejected at_req_error (new_Error "net::ERR_FAILED"))
  /\ calls (request (rt := reference_runtime) sample_url sample_options ∅
              quiet_host ([] ++ [req_error (new_Error "net::ERR_FAILED")]))
     = calls (request (rt := reference_runtime) sample_url sample_options ∅
                quiet_host [])
       ++ (if 0 <? timeout sample_options then [clearTimeout] else []).
Proof.
  apply (proj1 (pending_failure_rejects (rt := reference_runtime) sample_url
                  sample_options ∅ quiet_host [] eq_refl)).
Defined.

(** The state after a response and its two chunks. *)
Lemma state_follows_events_witness :
  redirectCount (request (rt := reference_runtime) sample_url sample_options ∅
                   quiet_host sample_response)
  = redirects sample_response
  /\ responses (request (rt := reference_runtime) sample_url sample_options ∅
                  quiet_host sample_response)
     = responses_of sample_response
  /\ chunks (request (rt := reference_runtime) sample_url sample_options ∅
               quiet_host sample_response)
     = received sample_response.
Proof.
  apply (state_follows_events (rt := reference_runtime) sample_url
           sample_options ∅ quiet_host sample_response).
  split_and!; [intros p Hp; discriminate | reflexivity | constructor].
Defined.

(** [get] with options that ask for PUT still issues a GET; [post]
    issues a POST. *)
Lemma wrapper_issues_its_method_witness :
  filter (fun c => is_net_request c = true)
    (calls (get (rt := reference_runtime) sample_url (Some body_options)
              {[ O := two_headers ]} quiet_host []))
  = [net_request GET sample_url DefaultSession manual true]
  /\ exists s,
       fst (post (rt := reference_runtime) sample_url sample_data
              (Some body_options) {[ O := two_headers ]} quiet_host [])
       = inr s
       /\ filter (fun c => is_net_request c = true) (calls s)
          = [net_request POST sample_url DefaultSession manual true].
Proof.
  split.
  - apply (proj1 (wrapper_issues_its_method (rt := reference_runtime) sample_url
                    (Some body_options) {[ O := two_headers ]} quiet_host [])
             (get (rt := reference_runtime)) GET).
    apply list_elem_of_here.
  - eexists. split; [vm_compute; reflexivity|].
    apply (proj2 (wrapper_issues_its_method (rt := reference_runtime) sample_url
                    (Some body_options) {[ O := two_headers ]} quiet_host [])
             (post (rt := reference_runtime)) POST sample_data).
    + apply list_elem_of_here.
    + vm_compute. reflexivity.
Defined.

(** [post] sets the content type on the object at reference 0 and
    leaves the object at reference 1 as it was. *)
Lemma wrapper_leaves_other_objects_witness :
  snd (post (rt := reference_runtime) sample_url sample_data
         (Some headers_options) {[ O := two_headers; 1%nat := mixed_headers ]}
         quiet_host [])
  !! 1%nat
  = ({[ O := two_headers; 1%nat := mixed_headers ]} : Heap) !! 1%nat.
Proof.
  apply (proj1 (wrapper_leaves_other_objects (rt := reference_runtime)
                  (post (rt := reference_runtime)) POST
                  sample_url sample_data (Some headers_options)
                  {[ O := two_headers; 1%nat := mixed_headers ]} quiet_host []
                  (list_elem_of_here _ _))).
  - vm_compute. by eexists.
  - vm_compute. discriminate.
Defined.

(** [post(url, '')] writes no body. *)
Lemma wrapper_writes_body_once_witness :
  exists s,
    fst (post (rt := reference_runtime) sample_url (VStr "") None ∅ quiet_host [])
    = inr s
    /\ filter (fun c => is_write c = true) (calls s) = [].
Proof.
  eexists. split; [vm_compute; reflexivity|].
  apply (wrapper_writes_body_once (rt := reference_runtime)
           (post (rt := reference_runtime)) POST sample_url
           (VStr "") None ∅ quiet_host []).
  - apply list_elem_of_here.
  - vm_compute. reflexivity.
  - vm_compute. reflexivity.
Defined.

(** ** The method of a request *)

Section MethodIrrelevant.
Context {rt : Runtime} (url : string).

Lemma set_headers_outcome h entries s :
  set_headers h entries s
  = (fst (headers_outcome h entries),
     with_calls (calls s ++ snd (headers_outcome h entries)) s).
Proof.
  revert s. induction entries as [|[k v] entries IH]; intros s; simpl.
  - unfold ret. f_equal. destruct s; simpl. by rewrite app_nil_r.
  - unfold bind, call, modify. simpl.
    destruct (setHeader_throws h k v); [done|].
    rewrite IH. simpl. f_equal. destruct s; simpl. by rewrite <- app_assoc.
Qed.

(** The handlers do not read the calls made so far, and what they add
    is no [net.request]. *)
Lemma handle_forget options m e s1 s2 :
  forget_calls s1 = forget_calls s2 ->
  calls s1 = retarget m <$> calls s2 ->
  forget_calls (exec (handle url options e) s1)
  = forget_calls (exec (handle url options e) s2)
  /\ calls (exec (handle url options e) s1)
     = retarget m <$> calls (exec (handle url options e) s2).
Proof.
  intros Hf Hc. destruct s1, s2. unfold forget_calls in *. simpl in *.
  injection Hf as -> -> -> -> -> -> -> -> ->. subst.
  destruct e; unfold_handlers; simpl; crunch; simpl;
    rewrite ?fmap_app; done.
Qed.

Lemma deliver_forget options m events s1 s2 :
  forget_calls s1 = forget_calls s2 ->
  calls s1 = retarget m <$> calls s2 ->
  forget_calls (deliver url options events s1)
  = forget_calls (deliver url options events s2)
  /\ calls (deliver url options events s1)
     = retarget m <$> calls (deliver url options events s2).
Proof.
  revert s1 s2. induction events as [|e events IH]; intros s1 s2 Hf Hc; [done|].
  simpl. destruct (handle_forget options m e s1 s2 Hf Hc) as [Hf' Hc'].
  by apply IH.
Qed.

(** [request] with the method of the options replaced. *)
Lemma request_with_method m o heap h events :
  let o' :=
    {| RequestOptions.method := Some m;
       RequestOptions.headers := RequestOptions.headers o;
       RequestOptions.body := RequestOptions.body o;
       RequestOptions.proxy := RequestOptions.proxy o;
       RequestOptions.timeout := RequestOptions.timeout o;
       RequestOptions.responseType := RequestOptions.responseType o;
       RequestOptions.followRedirect := RequestOptions.followRedirect o;
       RequestOptions.maxRedirects := RequestOptions.maxRedirects o |} in
  forget_calls (request url o' heap h events)
  = forget_calls (request url o heap h events)
  /\ calls (request url o' heap h events)
     = retarget m <$> calls (request url o heap h events).
Proof.
  intros o'. unfold request.
  change (deliver url o' events) with (deliver url o events).
  apply deliver_forget.
  - unfold start, setupProxy, issue, exec, bind, read, call, modify, ret.
    change (proxy o') with (proxy o). change (headers o' heap) with (headers o heap).
    change (timeout o') with (timeout o). change (body o') with (body o).
    change (followRedirect o') with (followRedirect o).
    simpl. destruct (proxy o) as [[|p]|]; simpl;
      try destruct (setProxy_rejects h); simpl; try done;
      destruct (net_request_throws h); simpl; try done;
      rewrite !set_headers_outcome; simpl;
      destruct (fst (headers_outcome h (headers o heap))); simpl; try done;
      destruct (0 <? timeout o); simpl; destruct (body_truthy (body o)); simpl;
      try destruct (body o) as [[?|?]|]; simpl; done.
  - unfold start, setupProxy, issue, exec, bind, read, call, modify, ret.
    change (proxy o') with (proxy o). change (headers o' heap) with (headers o heap).
    change (timeout o') with (timeout o). change (body o') with (body o).
    change (followRedirect o') with (followRedirect o).
    change (method o') with m.
    assert (Hh : forall entries,
      retarget m <$> snd (headers_outcome h entries) = snd (headers_outcome h entries)).
    { induction entries as [|[k v] entries IH]; simpl; [done|].
      destruct (setHeader_throws h k v); simpl; [done|]. f_equal. exact IH. }
    simpl. destruct (proxy o) as [[|p]|]; simpl;
      try destruct (setProxy_rejects h); simpl; try done;
      destruct (net_request_throws h); simpl; try done;
      rewrite !set_headers_outcome; simpl;
      destruct (fst (headers_outcome h (headers o heap))); simpl;
      rewrite ?fmap_app, ?Hh; simpl; try done;
      destruct (0 <? timeout o); simpl; destruct (body_truthy (body o)); simpl;
      try destruct (body o) as [[?|?]|]; simpl;
      rewrite ?fmap_app, ?Hh; simpl; rewrite ?fmap_app, ?Hh; done.
Qed.
End MethodIrrelevant.

(** X15: [get] and [del] differ from [request] with the caller's
    options only in the method handed to [net.request]: whatever the
    host does, the promise, every outcome passed to it, the timer and
    the rest of the state are the same, and so are the calls on the
    host, the method apart. *)
Theorem wrapper_settles_like_request {rt : Runtime}
    wrapper m url options heap h events :
  (wrapper, m) ∈ [(get, GET); (del, DELETE)] ->
  forget_calls (wrapper url options heap h events)
  = forget_calls (request url (spread options) heap h events)
  /\ promise (wrapper url options heap h events)
     = promise (request url (spread options) heap h events)
  /\ calls (wrapper url options heap h events)
     = retarget m <$> calls (request url (spread options) heap h events).
Proof.
  intros Hw.
  assert (Hany : forall m',
    forget_calls (without_body m' url options heap h events)
    = forget_calls (request url (spread options) heap h events)
    /\ promise (without_body m' url options heap h events)
       = promise (request url (spread options) heap h events)
    /\ calls (without_body m' url options heap h events)
       = retarget m' <$> calls (request url (spread options) heap h events)).
  { intros m'. unfold without_body.
    destruct (request_with_method url m' (spread options) heap h events) as [Hf Hc].
    split_and!; [done | | done].
    change (promise ?s) with (promise (forget_calls s)). by rewrite Hf. }
  repeat (apply elem_of_cons in Hw as [Hw|Hw];
          [injection Hw as -> ->; apply Hany|]).
  by apply elem_of_nil in Hw.
Qed.

(** [del] with options that time out after 100 ms. *)
Lemma wrapper_settles_like_request_witness :
  forget_calls (del (rt := reference_runtime) sample_url (Some sample_options) ∅
                  quiet_host [timer_fires])
  = forget_calls (request (rt := reference_runtime) sample_url
                    (spread (Some sample_options)) ∅ quiet_host [timer_fires])
  /\ promise (del (rt := reference_runtime) sample_url (Some sample_options) ∅
                quiet_host [timer_fires])
     = promise (request (rt := reference_runtime) sample_url
                  (spread (Some sample_options)) ∅ quiet_host [timer_fires])
  /\ calls (del (rt := reference_runtime) sample_url (Some sample_options) ∅
              quiet_host [timer_fires])
     = retarget DELETE
       <$> calls (request (rt := reference_runtime) sample_url
                    (spread (Some sample_options)) ∅ quiet_host [timer_fires]).
Proof.
  apply (wrapper_settles_like_request (rt := reference_runtime)
           (del (rt := reference_runtime)) DELETE sample_url
           (Some sample_options) ∅ quiet_host [timer_fires]).
  apply list_elem_of_further, list_elem_of_here.
Defined.

(** ** The first outcome *)

Section FirstOutcome.
Context {rt : Runtime} (url : string) (options : RequestOptions.t).
Context (heap : Heap) (h : Host).

Lemma first_outcome_after_snoc pre events e :
  first_outcome_after url options pre (events ++ [e])
  = match first_outcome_after url options pre events with
    | Some o => Some o
    | None => outcome_of url options (pre ++ events) e
    end.
Proof.
  revert pre. induction events as [|e' events IH]; intros pre; simpl.
  - rewrite app_nil_r. by destruct (outcome_of url options pre e).
  - destruct (outcome_of url options pre e'); [done|].
    by rewrite IH, <- app_assoc.
Qed.

(** Once its timer has fired, a call with a positive timeout has an
    outcome. *)
Lemma first_outcome_timer pre events :
  0 < timeout options -> timer_fires ∈ events ->
  is_Some (first_outcome_after url options pre events).
Proof.
  intros Hpos. revert pre.
  induction events as [|e events IH]; intros pre Hin; [by apply elem_of_nil in Hin|].
  simpl. destruct (outcome_of url options pre e) eqn:Ho; [by eexists|].
  apply elem_of_cons in Hin as [<-|Hin]; [|by apply IH].
  simpl in Ho. apply Z.ltb_lt in Hpos. by rewrite Hpos in Ho.
Qed.

(** On a pending call whose request was issued, the handler of an event
    settles the promise with the outcome of that event. *)
Lemma handle_outcome events e :
  accepts options heap h ->
  promise (request url options heap h events) = None ->
  promise (request url options heap h (events ++ [e]))
  = outcome_of url options events e.
Proof.
  intros Hacc Hp. rewrite request_snoc.
  apply (issued_iff_accepted url options heap h events) in Hacc.
  pose proof (request_Inv url options heap h events) as [_ Hpend _ _ _ _ _ _].
  destruct (Hpend Hp) as [_ Ht].
  destruct (request_counters url options heap h events) as [_ Hc].
  destruct (Hc Hacc) as (Hr & _ & Hch).
  pose proof (request_responses url options heap h events Hacc) as Hres.
  clear Hpend Hc. unfold outcome_of. revert Hacc Hp Ht Hr Hch Hres.
  generalize (responses_of events) (received events) (redirects events).
  intros rs cs n.
  destruct (request url options heap h events); simpl.
  intros -> -> -> -> -> ->.
  unfold response_of, timeout_error, redirect_error, parse_error.
  destruct e; unfold_handlers; simpl; crunch; simpl in *; congruence.
Qed.

Lemma request_first_outcome events :
  accepts options heap h ->
  promise (request url options heap h events) = first_outcome url options events.
Proof.
  intros Hacc. unfold first_outcome.
  induction events as [|e events IH] using rev_ind.
  - destruct (start_shape url options heap h)
      as (_ & _ & _ & _ & [(_ & _ & Hp & _)|(c & sent & _ & _ & _ & _ & _ & _ & Hwhy)]);
      [done | by destruct (refused_not_accepted url options heap h c sent Hwhy)].
  - rewrite first_outcome_after_snoc, <- IH. simpl.
    destruct (promise (request url options heap h events)) as [o|] eqn:Hp.
    + rewrite request_snoc. by apply handle_settled.
    + by apply handle_outcome.
Qed.

(** A call whose request was not issued was rejected by the [.catch]
    handler. *)
Lemma request_setup_outcome events :
  accepts options heap h
  \/ exists cause,
       promise (request url options heap h events)
       = Some (Rejected at_catch (setup_error cause)).
Proof.
  destruct (start_shape url options heap h)
    as (_ & _ & _ & _ & [(Hacc & _)|(c & sent & _ & Hp & _)]); [by left|].
  right. exists c. unfold request. by apply deliver_settled.
Qed.
End FirstOutcome.

(** C2: the promise of a call holds the first outcome passed to
    [resolve] or [reject] and nothing else, and once settled it keeps
    that outcome whatever events follow. When the host refused a call of
    the setup that outcome is the rejection of the [.catch] handler;
    otherwise it is the outcome of the first event that has one: the end
    or the error of a response received before it, an error or an abort
    of the request, the redirect beyond the maximum, the expiry of a
    timer that was started; the call is pending only while no such event
    has come, so never past the expiry of its timer. *)
Theorem request_settles_once {rt : Runtime} url options heap h events :
  promise (request url options heap h events)
  = head (settle_calls (request url options heap h events))
  /\ (forall o more,
        promise (request url options heap h events) = Some o ->
        promise (request url options heap h (events ++ more)) = Some o)
  /\ (forall e,
        terminal options (request url options heap h events) e = true ->
        is_Some (promise (request url options heap h (events ++ [e]))))
  /\ (listening (request url options heap h events) = false ->
      exists cause,
        promise (request url options heap h events)
        = Some (Rejected at_catch (setup_error cause)))
  /\ (accepts options heap h
      \/ exists cause,
           promise (request url options heap h events)
           = Some (Rejected at_catch (setup_error cause)))
  /\ (accepts options heap h ->
      promise (request url options heap h events)
      = first_outcome url options events)
  /\ (accepts options heap h ->
      0 < timeout options ->
      timer_fires ∈ events ->
      is_Some (promise (request url options heap h events))).
Proof.
  split_and!.
  - apply (inv_first _ _ (request_Inv url options heap h events)).
  - intros o more Ho. rewrite request_app. by apply deliver_settled.
  - intros e He. rewrite request_snoc.
    destruct (promise (request url options heap h events)) as [o|] eqn:Hp.
    + exists o. by apply handle_settled.
    + revert He Hp. generalize (request url options heap h events) as s.
      intros s He Hp. by_cases s e; simplify_eq/=; eauto.
      all: match goal with H : ?x = None, T : context [?x] |- _ =>
             rewrite H in T; discriminate
           end.
  - intros HL.
    destruct (request_setup_outcome url options heap h events) as [Hacc|Hc]; [|done].
    apply (issued_iff_accepted url options heap h events) in Hacc. congruence.
  - apply request_setup_outcome.
  - apply request_first_outcome.
  - intros Hacc Hpos Hin. rewrite request_first_outcome by done.
    by apply first_outcome_timer.
Qed.

(** A response, its body and its end resolve the call, and the abort
    that follows changes nothing; the timer fires, then the abort it
    caused is reported: the promise keeps the timeout. *)
Lemma request_settles_once_witness :
  promise (request (rt := reference_runtime) sample_url sample_options ∅
             quiet_host response_then_abort)
  = Some (Resolved {| Response.data := DataJson (VObj [("a", VNum 1)]);
                      Response.status := 200;
                      Response.statusText := "OK";
                      Response.headers := sample_headers;
                      Response.url := sample_url |})
  /\ promise (request (rt := reference_runtime) sample_url sample_options ∅
                quiet_host ([timer_fires] ++ [req_abort_event]))
     = Some (Rejected at_timeout (timeout_error sample_options))
  /\ is_Some (promise (request (rt := reference_runtime) sample_url
                         sample_options ∅ quiet_host
                         [req_response 200 "OK" None; timer_fires])).
Proof.
  assert (Hacc : accepts sample_options ∅ quiet_host).
  { split_and!; [intros p Hp; discriminate | reflexivity | constructor]. }
  split_and!.
  - rewrite (proj1 (proj2 (proj2 (proj2 (proj2 (proj2
               (request_settles_once (rt := reference_runtime) sample_url
                  sample_options ∅ quiet_host response_then_abort)))))) Hacc).
    vm_compute. reflexivity.
  - apply (proj1 (proj2 (request_settles_once (rt := reference_runtime)
                           sample_url sample_options ∅ quiet_host [timer_fires]))).
    vm_compute. reflexivity.
  - apply (proj2 (proj2 (proj2 (proj2 (proj2 (proj2
             (request_settles_once (rt := reference_runtime) sample_url
                sample_options ∅ quiet_host
                [req_response 200 "OK" None; timer_fires])))))) Hacc).
    + vm_compute. reflexivity.
    + apply list_elem_of_further, list_elem_of_here.
Defined.

(** ** The timer *)





(** ** The call when [request] returns *)

(** X16: when [request] returns the call is pending and the host has
    seen the calls of the proxy setup only, whatever it will answer;
    once the callback of [.then] or the handler of [.catch] has run,
    the call is still pending exactly when the host accepted every call
    of the setup. *)
Theorem pending_at_return {rt : Runtime} url options heap h :
  promise (at_return options h) = None
  /\ settle_calls (at_return options h) = []
  /\ listening (at_return options h) = false
  /\ timeoutId (at_return options h) = NoTimer
  /\ calls (at_return options h) = proxy_calls options h
  /\ (promise (request url options heap h []) = None <-> accepts options heap h).
Proof.
  split_and!.
  1-5: unfold at_return, setupProxy, proxy_calls, partition_name, proxy_rules;
       by destruct (proxy options) as [[|p]|].
  unfold request. simpl.
  destruct (start_shape url options heap h)
    as (_ & _ & _ & _ & [(Hacc & _ & -> & _)|(c & sent & _ & -> & _ & _ & _ & _ & Hwhy)]).
  - done.
  - split; [done|]. intros Hacc.
    by destruct (refused_not_accepted url options heap h c sent Hwhy).
Qed.

(** A header value the host refuses: the call is pending when
    [request] returns, with no call made, and rejected only once the
    callbacks have run; on a quiet host it stays pending. *)
Lemma pending_at_return_witness :
  promise (at_return headers_options strict_host) = None
  /\ calls (at_return headers_options strict_host) = []
  /\ promise (request (rt := reference_runtime) sample_url headers_options
                {[ O := broken_headers ]} strict_host [])
     = Some (Rejected at_catch
               (setup_error (new_Error "Invalid value for header 'x-note'")))
  /\ promise (request (rt := reference_runtime) sample_url sample_options ∅
                quiet_host [])
     = None.
Proof.
  split_and!.
  - apply (proj1 (pending_at_return (rt := reference_runtime) sample_url
                    headers_options {[ O := broken_headers ]} strict_host)).
  - apply (proj1 (proj2 (proj2 (proj2 (proj2
             (pending_at_return (rt := reference_runtime) sample_url
                headers_options {[ O := broken_headers ]} strict_host)))))).
  - vm_compute. reflexivity.
  - apply (proj2 (proj2 (proj2 (proj2 (proj2
             (pending_at_return (rt := reference_runtime) sample_url
                sample_options ∅ quiet_host))))));
      split_and!; [intros p Hp; discriminate | reflexivity | constructor].
Defined.
